(** * Lane-racing simulation: vehicle, road, obstacles and driver loop

    A shallow embedding of [car.py], [road.py] and the update/restart part of
    [main.py], followed by the properties of the specification.

    Conventions of the embedding.
    - Python [int] values are [Z]; [//] is [Z.div] (floor division).
    - Python [float] values are idealised as exact rationals [Q]: rounding is
      not modelled.  Fields that hold both [int] and [float] values over a
      run ([velocity], [multiplier], an obstacle's [y]) are [Q].
    - Where a property depends on what rounding does, the numeric part of
      [road.py] is embedded a second time, in the modules [Double],
      [FObstacle], [FParticle] and [FRoad], on binary64 floats with the
      operations Python's [float] has.
    - Command strings and obstacle type tags are [string], compared with
      [String.eqb] as [==] / [!=] do.
    - Attributes assigned once in [__init__] and never written again
      ([max_velocity], [acceleration], [lane_width], ...) are constants.
    - Calls to the [random] module are explicit inputs (the values drawn).
    - Drawing code reads state only and is left out. *)

From Stdlib Require Import ZArith QArith Qround Lqa Lia Bool List String.
From Stdlib Require PrimFloat FloatOps SpecFloat Uint63.
Import ListNotations.

Local Open Scope Z_scope.

(** ** Python numerics *)

Module Py.

(** [a < b] on floats. *)
Definition Qltb (a b : Q) : bool := negb (Qle_bool b a).

(** [a >= b] on floats. *)
Definition Qgeb (a b : Q) : bool := Qle_bool b a.

(** [max(a, b)]: the first argument unless the second is greater. *)
Definition max (a b : Q) : Q := if Qltb a b then b else a.

(** [min(a, b)]: the first argument unless the second is smaller. *)
Definition min (a b : Q) : Q := if Qltb b a then b else a.

(** [int(q)]: truncation toward zero. *)
Definition int (q : Q) : Z := Z.quot (Qnum q) (Z.pos (Qden q)).

(** [a != b] on strings. *)
Definition neqb (a b : string) : bool := negb (String.eqb a b).

End Py.

(** ** pygame.Rect

    [pygame.Rect] and [Rect.colliderect] are library code.  A rectangle
    stores four integers; float arguments are truncated by the constructor.
    [colliderect] follows pygame 2: a rectangle of zero width or height
    collides with nothing, and the four comparisons are strict. *)

Module Rect.

Record t : Type := mk { x : Z; y : Z; w : Z; h : Z }.

(** [pygame.Rect(left, top, width, height)] with possibly float position. *)
Definition make (left top : Q) (width height : Z) : t :=
  mk (Py.int left) (Py.int top) width height.

Definition colliderect (A B : t) : bool :=
  if (w A =? 0) || (h A =? 0) || (w B =? 0) || (h B =? 0) then false
  else (Z.min (x A) (x A + w A) <? Z.max (x B) (x B + w B))
    && (Z.min (y A) (y A + h A) <? Z.max (y B) (y B + h B))
    && (Z.max (x A) (x A + w A) >? Z.min (x B) (x B + w B))
    && (Z.max (y A) (y A + h A) >? Z.min (y B) (y B + h B)).

(** Geometry used to state the overlap properties: the normalised edges
    of a rectangle and the extent of the intersection of two of them. *)
Definition left (A : t) : Z := Z.min (x A) (x A + w A).
Definition right (A : t) : Z := Z.max (x A) (x A + w A).
Definition top (A : t) : Z := Z.min (y A) (y A + h A).
Definition bottom (A : t) : Z := Z.max (y A) (y A + h A).

Definition overlap_w (A B : t) : Z :=
  Z.min (right A) (right B) - Z.max (left A) (left B).
Definition overlap_h (A B : t) : Z :=
  Z.min (bottom A) (bottom B) - Z.max (top A) (top B).

Definition overlap_area (A B : t) : Z :=
  Z.max 0 (overlap_w A B) * Z.max 0 (overlap_h A B).

End Rect.

(** ** car.py *)

Module Car.

Definition max_velocity : Q := 6.
Definition acceleration : Q := 2 # 10.
Definition friction : Q := 15 # 100.
Definition default_speed : Q := 3.
Definition lane_width : Z := 200.
Definition lane_change_speed : Z := 10.

Record t : Type := mk {
  y : Z;
  width : Z;
  height : Z;
  velocity : Q;
  lane : Z;
  target_lane : Z;
  x : Z;
  braking : bool;
  current_command : string;
  last_command : string
}.

(** [Car.__init__(x, y, width, height)]; the [x] argument is not used. *)
Definition init (x0 y0 width0 height0 : Z) : t :=
  {| y := y0; width := width0; height := height0;
     velocity := 0;
     lane := 1; target_lane := 1;
     x := 1 * lane_width + lane_width / 2;
     braking := false;
     current_command := "CENTER";
     last_command := "NONE" |}.

Definition update_controls (model_action : string) (c : t) : t :=
  let braking' := String.eqb model_action "BRAKE" in
  let target_lane' :=
    if String.eqb model_action "BRAKE" then target_lane c
    else if Py.neqb model_action (last_command c) then
      if String.eqb model_action "SWIPE_LEFT" && (target_lane c >? 0)
      then Z.max 0 (target_lane c - 1)
      else if String.eqb model_action "SWIPE_RIGHT" && (target_lane c <? 2)
      then Z.min 2 (target_lane c + 1)
      else target_lane c
    else target_lane c in
  {| y := y c; width := width c; height := height c;
     velocity := velocity c; lane := lane c;
     target_lane := target_lane';
     x := x c; braking := braking';
     current_command := model_action;
     last_command := model_action |}.

Definition update (dt : Q) (c : t) : t :=
  let velocity' :=
    if braking c then Py.max 0 (velocity c - acceleration * 4)
    else if Py.Qltb (velocity c) default_speed
         then Py.min default_speed (velocity c + acceleration)
         else default_speed in
  let target_x := target_lane c * lane_width + lane_width / 2 in
  if Z.abs (x c - target_x) >? 3 then
    {| y := y c; width := width c; height := height c;
       velocity := velocity';
       lane := lane c; target_lane := target_lane c;
       x := if x c <? target_x then x c + lane_change_speed
            else x c - lane_change_speed;
       braking := braking c;
       current_command := current_command c;
       last_command := last_command c |}
  else
    {| y := y c; width := width c; height := height c;
       velocity := velocity';
       lane := target_lane c; target_lane := target_lane c;
       x := target_x;
       braking := braking c;
       current_command := current_command c;
       last_command := last_command c |}.

Definition get_rect (c : t) : Rect.t :=
  Rect.make (inject_Z (x c - width c / 2)) (inject_Z (y c - height c / 2))
            (width c) (height c).

(** [Car.reset_position(x, y)]; the [x] argument is not used. *)
Definition reset_position (x0 y0 : Z) (c : t) : t :=
  {| y := y0; width := width c; height := height c;
     velocity := 0;
     lane := 1; target_lane := 1;
     x := 1 * lane_width + lane_width / 2;
     braking := braking c;
     current_command := current_command c;
     last_command := "NONE" |}.

(** A call made on a vehicle by the driver. *)
Inductive call : Type :=
| CallControls (model_action : string)
| CallUpdate (dt : Q).

Definition step (k : call) (c : t) : t :=
  match k with
  | CallControls a => update_controls a c
  | CallUpdate dt => update dt c
  end.

(** The state after each call of a sequence, in order. *)
Fixpoint trace (ks : list call) (c : t) : list t :=
  match ks with
  | [] => []
  | k :: ks' => let c' := step k c in c' :: trace ks' c'
  end.

(** The state after the whole sequence. *)
Definition run (ks : list call) (c : t) : t := fold_left (fun s k => step k s) ks c.

End Car.

(** ** road.py *)

Module Obstacle.

(** The [point_values] dictionary every obstacle carries. *)
Definition point_values : list (string * Z) :=
  [("car"%string, 10); ("truck"%string, 20); ("barrier"%string, 5)].

Fixpoint lookup (k : string) (d : list (string * Z)) : option Z :=
  match d with
  | [] => None
  | (k', v) :: d' => if String.eqb k k' then Some v else lookup k d'
  end.

Record t : Type := mk {
  x : Z;
  y : Q;
  width : Z;
  height : Z;
  speed : Q;
  active : bool;
  obstacle_type : string;
  animation_offset : Q;
  points_awarded : bool
}.

(** [Obstacle.__init__]; [draw] is the value of [random.random()]. *)
Definition init (x0 : Z) (y0 : Q) (width0 height0 : Z) (speed0 : Q)
                (obstacle_type0 : string) (draw : Q) : t :=
  {| x := x0; y := y0; width := width0; height := height0;
     speed := speed0; active := true; obstacle_type := obstacle_type0;
     animation_offset := draw * (628 # 100);
     points_awarded := false |}.

Definition update (dt camera_speed : Q) (o : t) : t :=
  let y' := (y o + camera_speed * dt * 150)%Q in
  {| x := x o; y := y'; width := width o; height := height o;
     speed := speed o;
     active := if Py.Qltb 800 y' then false else active o;
     obstacle_type := obstacle_type o;
     animation_offset := animation_offset o;
     points_awarded := points_awarded o |}.

Definition get_rect (o : t) : Rect.t :=
  Rect.make (inject_Z (x o - width o / 2))
            (y o - inject_Z (height o / 2))%Q
            (width o) (height o).

(** [point_values[obstacle_type]]; [None] stands for a [KeyError]. *)
Definition point_value (o : t) : option Z :=
  lookup (obstacle_type o) point_values.

End Obstacle.

Module Particle.

(** A road particle: the dictionary with keys x, y, speed, life, max_life. *)
Record t : Type := mk {
  x : Z;
  y : Q;
  speed : Q;
  life : Q;
  max_life : Z
}.

End Particle.

Module Road.

Definition lane_width : Z := 200.
Definition num_lanes : Z := 3.
Definition line_spacing : Q := 40.
Definition obstacle_spawn_interval : Q := 1500.
Definition obstacle_speed : Q := 0.
Definition bonus_spawn_chance : Q := 1 # 10.

Record t : Type := mk {
  width : Z;
  height : Z;
  road_y_offset : Q;
  obstacles : list Obstacle.t;
  obstacle_spawn_timer : Q;
  score : Z;
  distance_traveled : Q;
  multiplier : Q;
  road_particles : list Particle.t;
  explosion_effects : list Particle.t
}.

(** The values the [random] module hands out during one [update]:
    for [spawn_obstacle], [randint(0, num_lanes - 1)], the [random()] of
    [Obstacle.__init__] and the [random()] of the type choice; for
    [update_particles], [random()], [randint(0, num_lanes * lane_width)]
    and the two [uniform] draws.  A draw is ignored on the paths that do
    not ask for it. *)
Record draws : Type := mkDraws {
  spawn_lane : Z;
  spawn_anim : Q;
  spawn_rand : Q;
  particle_roll : Q;
  particle_x : Z;
  particle_speed : Q;
  particle_life : Q
}.

Definition init (width0 height0 : Z) : t :=
  {| width := width0; height := height0;
     road_y_offset := 0;
     obstacles := [];
     obstacle_spawn_timer := 0;
     score := 0;
     distance_traveled := 0;
     multiplier := 1;
     road_particles := [];
     explosion_effects := [] |}.

Definition set_obstacles (os : list Obstacle.t) (r : t) : t :=
  {| width := width r; height := height r;
     road_y_offset := road_y_offset r;
     obstacles := os;
     obstacle_spawn_timer := obstacle_spawn_timer r;
     score := score r;
     distance_traveled := distance_traveled r;
     multiplier := multiplier r;
     road_particles := road_particles r;
     explosion_effects := explosion_effects r |}.

Definition choose_type (rand : Q) : string :=
  if Py.Qltb rand (33 # 100) then "truck"%string
  else if Py.Qltb rand (67 # 100) then "barrier"%string
  else "car"%string.

Definition spawn_obstacle (d : draws) (r : t) : t :=
  let lane := spawn_lane d in
  let x := lane * lane_width + lane_width / 2 in
  let y := (-100)%Q in
  let width := 50 in
  let height := 80 in
  let obstacle_type := choose_type (spawn_rand d) in
  let obstacle :=
    Obstacle.init x y width height obstacle_speed obstacle_type
                  (spawn_anim d) in
  set_obstacles (obstacles r ++ [obstacle]) r.

(** [update_particles]: a particle may be added, then every particle is
    moved and aged, and the ones that are spent or below the screen are
    removed.  [list.remove] takes out the first element equal to the one at
    hand; an equal element earlier in the list would have met the same
    removal test, so the element taken out is the one at hand. *)
Definition update_particles (dt : Q) (d : draws) (r : t) : t :=
  let added :=
    if Py.Qltb (particle_roll d) (4 # 10) then
      road_particles r ++
        [ {| Particle.x := particle_x d; Particle.y := (-10)%Q;
             Particle.speed := particle_speed d;
             Particle.life := particle_life d;
             Particle.max_life := 5 |} ]
    else road_particles r in
  let moved :=
    map (fun p =>
           {| Particle.x := Particle.x p;
              Particle.y := (Particle.y p + Particle.speed p * dt)%Q;
              Particle.speed := Particle.speed p;
              Particle.life := (Particle.life p - dt)%Q;
              Particle.max_life := Particle.max_life p |}) added in
  let kept :=
    filter (fun p =>
              negb (Qle_bool (Particle.life p) 0
                    || Py.Qltb (inject_Z (height r)) (Particle.y p))) moved in
  {| width := width r; height := height r;
     road_y_offset := road_y_offset r;
     obstacles := obstacles r;
     obstacle_spawn_timer := obstacle_spawn_timer r;
     score := score r;
     distance_traveled := distance_traveled r;
     multiplier := multiplier r;
     road_particles := kept;
     explosion_effects := explosion_effects r |}.

(** The first three steps of [update]: scroll offset, distance and score,
    spawn timer (with the spawn it may trigger). *)
Definition update_accounting (dt car_speed : Q) (d : draws) (r : t) : t :=
  let offset := (road_y_offset r + car_speed * dt * 100)%Q in
  let offset' := if Py.Qltb line_spacing offset then 0%Q else offset in
  let distance_increment := (car_speed * dt * 15)%Q in
  let timer := (obstacle_spawn_timer r + dt * 1000)%Q in
  let r1 :=
    {| width := width r; height := height r;
       road_y_offset := offset';
       obstacles := obstacles r;
       obstacle_spawn_timer := timer;
       score := score r + Py.int (distance_increment * multiplier r);
       distance_traveled := (distance_traveled r + distance_increment)%Q;
       multiplier := multiplier r;
       road_particles := road_particles r;
       explosion_effects := explosion_effects r |} in
  if Py.Qgeb timer obstacle_spawn_interval then
    let r2 := spawn_obstacle d r1 in
    {| width := width r2; height := height r2;
       road_y_offset := road_y_offset r2;
       obstacles := obstacles r2;
       obstacle_spawn_timer := 0;
       score := score r2;
       distance_traveled := distance_traveled r2;
       multiplier := multiplier r2;
       road_particles := road_particles r2;
       explosion_effects := explosion_effects r2 |}
  else r1.

(** The loop over a copy of the obstacle list: every obstacle is moved,
    and the ones found inactive afterwards are taken out of the list. *)
Definition advance_obstacles (dt car_speed : Q) (os : list Obstacle.t)
  : list Obstacle.t :=
  filter Obstacle.active (map (Obstacle.update dt car_speed) os).

Definition update (dt car_speed : Q) (d : draws) (r : t) : t :=
  let r1 := update_accounting dt car_speed d r in
  let r2 := set_obstacles (advance_obstacles dt car_speed (obstacles r1)) r1 in
  update_particles dt d r2.

Definition check_collisions (car_rect : Rect.t) (r : t) : bool * Z :=
  if existsb (fun o => Obstacle.active o
                       && Rect.colliderect car_rect (Obstacle.get_rect o))
             (obstacles r)
  then (true, 0) else (false, 0).

Definition get_score (r : t) : Z := score r.
Definition get_distance (r : t) : Z := Py.int (distance_traveled r).

Definition reset (r : t) : t :=
  {| width := width r; height := height r;
     road_y_offset := road_y_offset r;
     obstacles := [];
     obstacle_spawn_timer := 0;
     score := 0;
     distance_traveled := 0;
     multiplier := 1;
     road_particles := [];
     explosion_effects := [] |}.

(** What one [award_points] call leaves behind: the value returned, the
    road's score afterwards (a float once the multiplier is one), and the
    obstacle with its flag. *)
Record award : Type := mkAward {
  award_returned : Q;
  award_score : Q;
  award_obstacle : Obstacle.t
}.

(** [award_points(obstacle)]; [None] stands for the [KeyError] of
    [point_values[obstacle_type]]. *)
Definition award_points (o : Obstacle.t) (r : t) : option award :=
  if negb (Obstacle.points_awarded o) then
    match Obstacle.point_value o with
    | None => None
    | Some value =>
        let points := (inject_Z value * multiplier r)%Q in
        Some {| award_returned := points;
                award_score := (inject_Z (score r) + points)%Q;
                award_obstacle :=
                  {| Obstacle.x := Obstacle.x o; Obstacle.y := Obstacle.y o;
                     Obstacle.width := Obstacle.width o;
                     Obstacle.height := Obstacle.height o;
                     Obstacle.speed := Obstacle.speed o;
                     Obstacle.active := Obstacle.active o;
                     Obstacle.obstacle_type := Obstacle.obstacle_type o;
                     Obstacle.animation_offset := Obstacle.animation_offset o;
                     Obstacle.points_awarded := true |} |}
    end
  else
    Some {| award_returned := 0;
            award_score := inject_Z (score r);
            award_obstacle := o |}.

End Road.

(** ** road.py in double arithmetic

    The same functions as above with Python's own numbers: every [float]
    is a binary64 value and every [+], [*], [<] is the rounded operation.
    An [int] that meets a [float] in an operation is converted first, which
    is exact for the constants of this file. *)

Module Double.

Import PrimFloat.
#[local] Set Warnings "-inexact-float".

(** The exact value of a finite float; [None] for an infinity or a NaN. *)
Definition to_Q (x : float) : option Q :=
  match FloatOps.Prim2SF x with
  | SpecFloat.S754_zero _ => Some 0%Q
  | SpecFloat.S754_finite s m e =>
      let magnitude :=
        match e with
        | Z0 => inject_Z (Z.pos m)
        | Zpos p => inject_Z (Z.pos m * Z.pow_pos 2 p)
        | Zneg p => Qmake (Z.pos m) (Pos.pow 2 p)
        end in
      Some (if s then Qopp magnitude else magnitude)
  | _ => None
  end.

(** [int(x)]: the exact value truncated toward zero; [None] stands for the
    [ValueError] on a NaN and the [OverflowError] on an infinity. *)
Definition int (x : float) : option Z := option_map Py.int (to_Q x).

(** [float(z)] for an integer of magnitude below 2^53. *)
Definition of_int (z : Z) : float :=
  match z with
  | Z0 => 0%float
  | Zpos _ => of_uint63 (Uint63.of_Z z)
  | Zneg _ => opp (of_uint63 (Uint63.of_Z (- z)))
  end.

End Double.

Module FObstacle.

Import PrimFloat.
#[local] Set Warnings "-inexact-float".

Record t : Type := mk {
  x : Z;
  y : float;
  width : Z;
  height : Z;
  speed : float;
  active : bool;
  obstacle_type : string;
  animation_offset : float;
  points_awarded : bool
}.

(** [Obstacle.__init__]; [draw] is the value of [random.random()]. *)
Definition init (x0 : Z) (y0 : float) (width0 height0 : Z) (speed0 : float)
                (obstacle_type0 : string) (draw : float) : t :=
  {| x := x0; y := y0; width := width0; height := height0;
     speed := speed0; active := true; obstacle_type := obstacle_type0;
     animation_offset := (draw * 6.28)%float;
     points_awarded := false |}.

Definition update (dt camera_speed : float) (o : t) : t :=
  let y' := (y o + camera_speed * dt * 150)%float in
  {| x := x o; y := y'; width := width o; height := height o;
     speed := speed o;
     active := if (800 <? y')%float then false else active o;
     obstacle_type := obstacle_type o;
     animation_offset := animation_offset o;
     points_awarded := points_awarded o |}.

End FObstacle.

Module FParticle.

Record t : Type := mk {
  x : Z;
  y : PrimFloat.float;
  speed : PrimFloat.float;
  life : PrimFloat.float;
  max_life : Z
}.

End FParticle.

Module FRoad.

Import PrimFloat.
#[local] Set Warnings "-inexact-float".

Definition lane_width : Z := 200.
Definition num_lanes : Z := 3.
Definition line_spacing : float := 40%float.
Definition obstacle_spawn_interval : float := 1500%float.
Definition obstacle_speed : float := 0%float.

Record t : Type := mk {
  width : Z;
  height : Z;
  road_y_offset : float;
  obstacles : list FObstacle.t;
  obstacle_spawn_timer : float;
  score : Z;
  distance_traveled : float;
  multiplier : float;
  road_particles : list FParticle.t;
  explosion_effects : list FParticle.t
}.

(** The values the [random] module hands out during one [update], as in
    [Road.draws]. *)
Record draws : Type := mkDraws {
  spawn_lane : Z;
  spawn_anim : float;
  spawn_rand : float;
  particle_roll : float;
  particle_x : Z;
  particle_speed : float;
  particle_life : float
}.

Definition init (width0 height0 : Z) : t :=
  {| width := width0; height := height0;
     road_y_offset := 0%float;
     obstacles := [];
     obstacle_spawn_timer := 0%float;
     score := 0;
     distance_traveled := 0%float;
     multiplier := 1%float;
     road_particles := [];
     explosion_effects := [] |}.

Definition set_obstacles (os : list FObstacle.t) (r : t) : t :=
  {| width := width r; height := height r;
     road_y_offset := road_y_offset r;
     obstacles := os;
     obstacle_spawn_timer := obstacle_spawn_timer r;
     score := score r;
     distance_traveled := distance_traveled r;
     multiplier := multiplier r;
     road_particles := road_particles r;
     explosion_effects := explosion_effects r |}.

Definition choose_type (rand : float) : string :=
  if (rand <? 0.33)%float then "truck"%string
  else if (rand <? 0.67)%float then "barrier"%string
  else "car"%string.

Definition spawn_obstacle (d : draws) (r : t) : t :=
  let lane := spawn_lane d in
  let x := lane * lane_width + lane_width / 2 in
  let y := (-100)%float in
  let width := 50 in
  let height := 80 in
  let obstacle_type := choose_type (spawn_rand d) in
  let obstacle :=
    FObstacle.init x y width height obstacle_speed obstacle_type
                   (spawn_anim d) in
  set_obstacles (obstacles r ++ [obstacle]) r.

Definition update_particles (dt : float) (d : draws) (r : t) : t :=
  let added :=
    if (particle_roll d <? 0.4)%float then
      road_particles r ++
        [ {| FParticle.x := particle_x d; FParticle.y := (-10)%float;
             FParticle.speed := particle_speed d;
             FParticle.life := particle_life d;
             FParticle.max_life := 5 |} ]
    else road_particles r in
  let moved :=
    map (fun p =>
           {| FParticle.x := FParticle.x p;
              FParticle.y := (FParticle.y p + FParticle.speed p * dt)%float;
              FParticle.speed := FParticle.speed p;
              FParticle.life := (FParticle.life p - dt)%float;
              FParticle.max_life := FParticle.max_life p |}) added in
  let kept :=
    filter (fun p =>
              negb ((FParticle.life p <=? 0)%float
                    || (Double.of_int (height r) <? FParticle.y p)%float))
           moved in
  {| width := width r; height := height r;
     road_y_offset := road_y_offset r;
     obstacles := obstacles r;
     obstacle_spawn_timer := obstacle_spawn_timer r;
     score := score r;
     distance_traveled := distance_traveled r;
     multiplier := multiplier r;
     road_particles := kept;
     explosion_effects := explosion_effects r |}.

(** The first three steps of [update].  [None] stands for the exception
    [int()] raises on a NaN or an infinity, which ends the call. *)
Definition update_accounting (dt car_speed : float) (d : draws) (r : t)
  : option t :=
  let offset := (road_y_offset r + car_speed * dt * 100)%float in
  let offset' := if (line_spacing <? offset)%float then 0%float else offset in
  let distance_increment := (car_speed * dt * 15)%float in
  match Double.int (distance_increment * multiplier r)%float with
  | None => None
  | Some points =>
      let timer := (obstacle_spawn_timer r + dt * 1000)%float in
      let r1 :=
        {| width := width r; height := height r;
           road_y_offset := offset';
           obstacles := obstacles r;
           obstacle_spawn_timer := timer;
           score := score r + points;
           distance_traveled := (distance_traveled r + distance_increment)%float;
           multiplier := multiplier r;
           road_particles := road_particles r;
           explosion_effects := explosion_effects r |} in
      if (obstacle_spawn_interval <=? timer)%float then
        let r2 := spawn_obstacle d r1 in
        Some {| width := width r2; height := height r2;
                road_y_offset := road_y_offset r2;
                obstacles := obstacles r2;
                obstacle_spawn_timer := 0%float;
                score := score r2;
                distance_traveled := distance_traveled r2;
                multiplier := multiplier r2;
                road_particles := road_particles r2;
                explosion_effects := explosion_effects r2 |}
      else Some r1
  end.

Definition advance_obstacles (dt car_speed : float) (os : list FObstacle.t)
  : list FObstacle.t :=
  filter FObstacle.active (map (FObstacle.update dt car_speed) os).

Definition update (dt car_speed : float) (d : draws) (r : t) : option t :=
  match update_accounting dt car_speed d r with
  | None => None
  | Some r1 =>
      let r2 :=
        set_obstacles (advance_obstacles dt car_speed (obstacles r1)) r1 in
      Some (update_particles dt d r2)
  end.

Definition get_score (r : t) : Z := score r.
Definition get_distance (r : t) : option Z := Double.int (distance_traveled r).

(** Draws used in examples: lane 1, a barrier, no new particle. *)
Definition quiet_draws : draws :=
  mkDraws 1 0%float 0.5%float 0.5%float 0 300%float 4%float.

End FRoad.

(** ** main.py: the game object, its per-frame update and restart *)

Module Game.

(** What [ModelPredictor.predict] returns: action, confidence and the
    class probabilities.  The classifier is opaque; its answer for the
    current frame is an input of [update]. *)
Record prediction : Type := mkPrediction {
  action : string;
  confidence : Q;
  predictions : list Q
}.

Record t : Type := mk {
  car : Car.t;
  road : Road.t;
  prediction_interval : Q;
  time_since_last_prediction : Q;
  pending_action : string;
  game_state : string;
  current_action : string;
  current_confidence : Q;
  all_predictions : list Q;
  last_score : Z;
  high_score : Z
}.

Definition SCREEN_WIDTH : Z := 600.
Definition SCREEN_HEIGHT : Z := 800.

Definition init (prediction_interval0 : Q) : t :=
  {| car := Car.init 300 650 45 70;
     road := Road.init SCREEN_WIDTH SCREEN_HEIGHT;
     prediction_interval := prediction_interval0;
     time_since_last_prediction := 0;
     pending_action := "CENTER";
     game_state := "PLAYING";
     current_action := "CENTER";
     current_confidence := 0;
     all_predictions := [0%Q; 1%Q; 0%Q];
     last_score := 0;
     high_score := 0 |}.

Definition restart_game (g : t) : t :=
  {| car := Car.reset_position 300 650 (car g);
     road := Road.reset (road g);
     prediction_interval := prediction_interval g;
     time_since_last_prediction := 0;
     pending_action := "CENTER";
     game_state := "PLAYING";
     current_action := current_action g;
     current_confidence := current_confidence g;
     all_predictions := all_predictions g;
     last_score := last_score g;
     high_score := high_score g |}.

Definition update (dt : Q) (p : prediction) (d : Road.draws) (g : t) : t :=
  if String.eqb (game_state g) "PLAYING" then
    let elapsed := (time_since_last_prediction g + dt)%Q in
    let due := Py.Qgeb elapsed (prediction_interval g) in
    let current_action' := if due then action p else current_action g in
    let current_confidence' :=
      if due then confidence p else current_confidence g in
    let all_predictions' :=
      if due then predictions p else all_predictions g in
    let pending_action' := if due then current_action' else pending_action g in
    let elapsed' := if due then 0%Q else elapsed in
    let car' := Car.update dt (Car.update_controls pending_action' (car g)) in
    let road' := Road.update dt (Car.velocity car') d (road g) in
    let collision := fst (Road.check_collisions (Car.get_rect car') road') in
    {| car := car';
       road := road';
       prediction_interval := prediction_interval g;
       time_since_last_prediction := elapsed';
       pending_action := pending_action';
       game_state := if collision then "GAME_OVER" else game_state g;
       current_action := current_action';
       current_confidence := current_confidence';
       all_predictions := all_predictions';
       last_score := last_score g;
       high_score :=
         if collision && (Road.get_score road' >? high_score g)
         then Road.get_score road' else high_score g |}
  else g.

Inductive key : Type := K_ESCAPE | K_r | K_other.

Inductive event : Type :=
| QUIT
| KEYDOWN (k : key)
| OTHER.

(** [handle_events]: the loop returns [False] at the first QUIT or ESCAPE
    and leaves the later events of the batch unread. *)
Fixpoint handle_events (events : list event) (g : t) : bool * t :=
  match events with
  | [] => (true, g)
  | QUIT :: _ => (false, g)
  | KEYDOWN K_ESCAPE :: _ => (false, g)
  | KEYDOWN K_r :: rest =>
      if String.eqb (game_state g) "GAME_OVER"
      then handle_events rest (restart_game g)
      else handle_events rest g
  | _ :: rest => handle_events rest g
  end.

(** The inputs of one pass of the loop in [run]: the clock's [dt], the
    event batch, the classifier's answer and the random draws. *)
Record frame : Type := mkFrame {
  frame_dt : Q;
  frame_events : list event;
  frame_prediction : prediction;
  frame_draws : Road.draws
}.

(** The state-changing part of one pass: events, then [update]. *)
Definition run_frame (f : frame) (g : t) : t :=
  update (frame_dt f) (frame_prediction f) (frame_draws f)
         (snd (handle_events (frame_events f) g)).

Definition run_frames (fs : list frame) (g : t) : t :=
  fold_left (fun s f => run_frame f s) fs g.

(** No key event of the batch is the restart key. *)
Definition no_restart_key (f : frame) : bool :=
  forallb (fun e => match e with KEYDOWN K_r => false | _ => true end)
          (frame_events f).

End Game.

(** ** model_predictor.py: from the network's output row to an action *)

Module Predictor.

Definition action_map : list (Z * string) :=
  [(0, "SWIPE_LEFT"%string); (1, "CENTER"%string); (2, "SWIPE_RIGHT"%string)].

Fixpoint lookup (k : Z) (d : list (Z * string)) : option string :=
  match d with
  | [] => None
  | (k', v) :: d' => if k =? k' then Some v else lookup k d'
  end.

(** [action_map.get(action_index, 'CENTER')]. *)
Definition get_action_name (action_index : Z) : string :=
  match lookup action_index action_map with
  | Some a => a
  | None => "CENTER"%string
  end.

(** [np.argmax] on a non-empty row: the index of the first maximum. *)
Fixpoint argmax_from (best_index : Z) (best : Q) (i : Z) (row : list Q) : Z :=
  match row with
  | [] => best_index
  | p :: row' =>
      if Py.Qltb best p then argmax_from i p (i + 1) row'
      else argmax_from best_index best (i + 1) row'
  end.

(** [np.argmax]; [None] stands for the [ValueError] on an empty row. *)
Definition argmax (row : list Q) : option Z :=
  match row with
  | [] => None
  | p :: row' => Some (argmax_from 0 p 1 row')
  end.

(** What the [except] branch of [predict] returns. *)
Definition fallback : Game.prediction :=
  Game.mkPrediction "CENTER" 0 [0%Q; 1%Q; 0%Q].

(** [predict(frame)].  Preprocessing and the network are opaque: the input
    is the row [predictions[0]] they produce, or [None] when either of
    them raises.  Every exception, the [KeyError] of [action_map[...]]
    included, ends in the fallback. *)
Definition predict (model_output : option (list Q)) : Game.prediction :=
  match model_output with
  | None => fallback
  | Some row =>
      match argmax row with
      | None => fallback
      | Some action_index =>
          match lookup action_index action_map with
          | None => fallback
          | Some a =>
              Game.mkPrediction a (nth (Z.to_nat action_index) row 0%Q) row
          end
      end
  end.

End Predictor.

(** ** dataset_generator.py: scenario choice and scene set-up *)

Module Dataset.

(** The values the [random] module hands out while one scenario is built:
    [randint(0, 2)], [random()], the index [random.choice] picks, and
    [randint(min_distance, max_distance)]. *)
Record draws : Type := mkDraws {
  lane_draw : Z;
  roll : Q;
  choice_index : nat;
  distance_draw : Z
}.

(** [random.choice(seq)] with the index drawn. *)
Definition choice (i : nat) (seq : list Z) : Z := nth i seq 0.

Definition generate_scenario (car_y : Z) (target_action : string) (d : draws)
  : Z * list (Z * Z) :=
  let min_distance := 150 in
  let max_distance := 400 in
  if String.eqb target_action "no_action" then
    let car_lane := lane_draw d in
    let other_lanes := filter (fun l => negb (l =? car_lane)) [0; 1; 2] in
    if Py.Qltb (roll d) (6 # 10) && (Z.of_nat (List.length other_lanes) >? 0) then
      let obs_lane := choice (choice_index d) other_lanes in
      let obs_y := car_y - distance_draw d in
      (car_lane, [(obs_lane, obs_y)])
    else (car_lane, [])
  else if String.eqb target_action "left" then
    let car_lane := choice (choice_index d) [1; 2] in
    let obs_y := car_y - distance_draw d in
    (car_lane, [(car_lane, obs_y)])
  else if String.eqb target_action "right" then
    let car_lane := choice (choice_index d) [0; 1] in
    let obs_y := car_y - distance_draw d in
    (car_lane, [(car_lane, obs_y)])
  else (1, []).

(** The obstacles [create_custom_obstacles] builds, in order; [anim i] is
    the [random()] drawn by the constructor of the [i]-th one. *)
Fixpoint custom_obstacles (anim : nat -> Q) (i : nat)
         (obstacle_configs : list (Z * Z)) : list Obstacle.t :=
  match obstacle_configs with
  | [] => []
  | (lane, y_pos) :: rest =>
      let x := lane * Road.lane_width + Road.lane_width / 2 in
      Obstacle.init x (inject_Z y_pos) 50 80 0 "car" (anim i)
        :: custom_obstacles anim (S i) rest
  end.

(** [create_custom_obstacles]: the list is cleared and refilled. *)
Definition create_custom_obstacles (anim : nat -> Q)
           (obstacle_configs : list (Z * Z)) (r : Road.t) : Road.t :=
  Road.set_obstacles (custom_obstacles anim 0 obstacle_configs) r.

(** The vehicle moved to the centre of a lane, as both generation loops
    do before drawing. *)
Definition position_car (car_lane : Z) (c : Car.t) : Car.t :=
  {| Car.y := Car.y c; Car.width := Car.width c; Car.height := Car.height c;
     Car.velocity := Car.velocity c;
     Car.lane := car_lane; Car.target_lane := car_lane;
     Car.x := car_lane * Car.lane_width + Car.lane_width / 2;
     Car.braking := Car.braking c;
     Car.current_command := Car.current_command c;
     Car.last_command := Car.last_command c |}.

(** The state part of one pass of the loop in [generate_dataset]: the
    scenario is drawn, the vehicle positioned, the obstacles replaced.
    (The loop also stores a [road_y] attribute that nothing reads.) *)
Definition place_scene (target_action : string) (d : draws) (anim : nat -> Q)
           (c : Car.t) (r : Road.t) : Car.t * Road.t :=
  let '(car_lane, obstacle_configs) :=
    generate_scenario (Car.y c) target_action d in
  (position_car car_lane c, create_custom_obstacles anim obstacle_configs r).

(** The state part of one pass of [generate_center_obstacle_augmentation]:
    vehicle in lane 0 or 2, one obstacle in the centre lane. *)
Definition place_center_scene (d : draws) (anim : nat -> Q)
           (c : Car.t) (r : Road.t) : Car.t * Road.t :=
  let car_lane := choice (choice_index d) [0; 2] in
  let obs_lane := 1 in
  let obs_y := Car.y c - distance_draw d in
  (position_car car_lane c,
   create_custom_obstacles anim [(obs_lane, obs_y)] r).

End Dataset.

(** ** Vocabulary of the properties *)

Module Props.

(** The vehicle invariant of the data model. *)
Definition car_ok (c : Car.t) : Prop :=
  (0 <= Car.lane c <= 2) /\
  (0 <= Car.target_lane c <= 2) /\
  (0 <= Car.velocity c <= Car.max_velocity)%Q.

(** A command that asks for a lane change. *)
Definition lane_command (a : string) : Prop :=
  a = "SWIPE_LEFT"%string \/ a = "SWIPE_RIGHT"%string.

(** A command outside the four-word vocabulary. *)
Definition unknown_command (a : string) : Prop :=
  a <> "BRAKE"%string /\ a <> "SWIPE_LEFT"%string /\
  a <> "SWIPE_RIGHT"%string /\ a <> "CENTER"%string.

(** What the rest of the program reads of a vehicle: every field except
    the two command registers, which only [update_controls] reads. *)
Definition observe (c : Car.t) : Z * Z * Z * Q * Z * Z * Z * bool :=
  (Car.y c, Car.width c, Car.height c, Car.velocity c,
   Car.lane c, Car.target_lane c, Car.x c, Car.braking c).

(** A call that keeps the brake asserted: a tick, or the BRAKE command. *)
Definition keeps_braking (k : Car.call) : Prop :=
  match k with
  | Car.CallUpdate _ => True
  | Car.CallControls a => a = "BRAKE"%string
  end.

Fixpoint count_updates (ks : list Car.call) : nat :=
  match ks with
  | [] => O
  | Car.CallUpdate _ :: ks' => S (count_updates ks')
  | Car.CallControls _ :: ks' => count_updates ks'
  end.

(** Two vehicles the rest of the program cannot tell apart, now or
    later: equal observations, and held commands that are either equal
    or both no lane command. *)
Definition similar (c1 c2 : Car.t) : Prop :=
  observe c1 = observe c2 /\
  (Car.last_command c1 = Car.last_command c2 \/
   (~ lane_command (Car.last_command c1) /\
    ~ lane_command (Car.last_command c2))).

(** The vehicle [i] with the braking flag and current command of [c]. *)
Definition carry_controls (c i : Car.t) : Car.t :=
  {| Car.y := Car.y i; Car.width := Car.width i; Car.height := Car.height i;
     Car.velocity := Car.velocity i;
     Car.lane := Car.lane i; Car.target_lane := Car.target_lane i;
     Car.x := Car.x i;
     Car.braking := Car.braking c;
     Car.current_command := Car.current_command c;
     Car.last_command := Car.last_command i |}.

(** The road [i] with the scroll offset of [r]. *)
Definition carry_scroll (r i : Road.t) : Road.t :=
  {| Road.width := Road.width i; Road.height := Road.height i;
     Road.road_y_offset := Road.road_y_offset r;
     Road.obstacles := Road.obstacles i;
     Road.obstacle_spawn_timer := Road.obstacle_spawn_timer i;
     Road.score := Road.score i;
     Road.distance_traveled := Road.distance_traveled i;
     Road.multiplier := Road.multiplier i;
     Road.road_particles := Road.road_particles i;
     Road.explosion_effects := Road.explosion_effects i |}.

(** Draws used in examples: lane 1, a barrier, no new particle. *)
Definition quiet_draws : Road.draws :=
  Road.mkDraws 1 0 (1 # 2) (1 # 2) 0 300 4.

(** A pass of the loop with no events, a tenth of a second on the clock
    and a classifier that answers CENTER. *)
Definition idle_frame : Game.frame :=
  Game.mkFrame (1 # 10) []
               (Game.mkPrediction "CENTER" 1 [0%Q; 1%Q; 0%Q]) quiet_draws.

(** Thirty idle passes from the start: the obstacle spawned in the
    centre lane has reached the vehicle. *)
Definition crashed_game : Game.t :=
  Game.run_frames (repeat idle_frame 30) (Game.init (6 # 10)).

Definition all_active (os : list Obstacle.t) : Prop :=
  Forall (fun o => Obstacle.active o = true) os.

(** Road states the program can be in: built by [Road.init] and changed
    by [Road.update] and [Road.reset] only. *)
Inductive road_reachable : Road.t -> Prop :=
| reach_init : forall w h, road_reachable (Road.init w h)
| reach_update : forall dt v d r,
    road_reachable r -> road_reachable (Road.update dt v d r)
| reach_reset : forall r, road_reachable r -> road_reachable (Road.reset r).

(** The centre of the target lane, as [Car.update] computes it. *)
Definition target_x (c : Car.t) : Z :=
  Car.target_lane c * Car.lane_width + Car.lane_width / 2.

(** A call that leaves the target lane alone: a tick, or a command that
    is neither swipe. *)
Definition keeps_target (k : Car.call) : Prop :=
  match k with
  | Car.CallUpdate _ => True
  | Car.CallControls a => ~ lane_command a
  end.

(** A call that keeps the brake released: a tick, or a command other
    than BRAKE. *)
Definition keeps_released (k : Car.call) : Prop :=
  match k with
  | Car.CallUpdate _ => True
  | Car.CallControls a => a <> "BRAKE"%string
  end.

(** Roads of a game in play: built by [Road.init], changed by [Road.reset]
    and by [Road.update] with a clock step and a velocity that are not
    negative and a lane draw that [randint(0, num_lanes - 1)] can give. *)
Inductive road_played : Road.t -> Prop :=
| played_init : forall w h, road_played (Road.init w h)
| played_update : forall dt v d r,
    road_played r ->
    (0 <= dt)%Q -> (0 <= v)%Q ->
    0 <= Road.spawn_lane d <= Road.num_lanes - 1 ->
    road_played (Road.update dt v d r)
| played_reset : forall r, road_played r -> road_played (Road.reset r).

(** An obstacle as the game keeps it on the road. *)
Definition obstacle_ok (o : Obstacle.t) : Prop :=
  Obstacle.active o = true /\
  Obstacle.points_awarded o = false /\
  Obstacle.width o = 50 /\ Obstacle.height o = 80 /\
  (Obstacle.x o = 100 \/ Obstacle.x o = 300 \/ Obstacle.x o = 500) /\
  (-100 <= Obstacle.y o <= 800)%Q /\
  (Obstacle.obstacle_type o = "truck"%string \/
   Obstacle.obstacle_type o = "barrier"%string \/
   Obstacle.obstacle_type o = "car"%string).

(** The vehicle without the two fields [reset_position] leaves alone. *)
Definition forget_controls (c : Car.t) : Car.t :=
  {| Car.y := Car.y c; Car.width := Car.width c; Car.height := Car.height c;
     Car.velocity := Car.velocity c;
     Car.lane := Car.lane c; Car.target_lane := Car.target_lane c;
     Car.x := Car.x c;
     Car.braking := false;
     Car.current_command := "";
     Car.last_command := Car.last_command c |}.

(** The road without the field [reset] leaves alone. *)
Definition forget_scroll (r : Road.t) : Road.t :=
  {| Road.width := Road.width r; Road.height := Road.height r;
     Road.road_y_offset := 0;
     Road.obstacles := Road.obstacles r;
     Road.obstacle_spawn_timer := Road.obstacle_spawn_timer r;
     Road.score := Road.score r;
     Road.distance_traveled := Road.distance_traveled r;
     Road.multiplier := Road.multiplier r;
     Road.road_particles := Road.road_particles r;
     Road.explosion_effects := Road.explosion_effects r |}.

(** Two games that play alike: same vehicle up to the braking flag and
    current command, same road up to the scroll offset, same prediction
    clock, held action and state.  The display fields and the high score
    are left free. *)
Definition replay_equal (g1 g2 : Game.t) : Prop :=
  forget_controls (Game.car g1) = forget_controls (Game.car g2) /\
  forget_scroll (Game.road g1) = forget_scroll (Game.road g2) /\
  Game.prediction_interval g1 = Game.prediction_interval g2 /\
  Game.time_since_last_prediction g1 = Game.time_since_last_prediction g2 /\
  Game.pending_action g1 = Game.pending_action g2 /\
  Game.game_state g1 = Game.game_state g2.

(** The game is playing, or it is over with the final score recorded. *)
Definition game_ok (g : Game.t) : Prop :=
  Game.game_state g = "PLAYING"%string \/
  (Game.game_state g = "GAME_OVER"%string /\
   Road.score (Game.road g) <= Game.high_score g).

(** Draws the [random] module can give to [generate_scenario]. *)
Definition scenario_draws_ok (d : Dataset.draws) : Prop :=
  0 <= Dataset.lane_draw d <= 2 /\
  (Dataset.choice_index d < 2)%nat /\
  150 <= Dataset.distance_draw d <= 400.

(** Draws the [random] module can give to the centre augmentation. *)
Definition center_draws_ok (d : Dataset.draws) : Prop :=
  (Dataset.choice_index d < 2)%nat /\
  -200 <= Dataset.distance_draw d <= 350.

(** The vehicle both generators and the game construct. *)
Definition game_car (c : Car.t) : Prop :=
  Car.y c = 650 /\ Car.width c = 45 /\ Car.height c = 70.

(** An event at which [handle_events] returns. *)
Definition is_quit (e : Game.event) : bool :=
  match e with
  | Game.QUIT => true
  | Game.KEYDOWN Game.K_ESCAPE => true
  | _ => false
  end.

Definition is_restart (e : Game.event) : bool :=
  match e with
  | Game.KEYDOWN Game.K_r => true
  | _ => false
  end.

(** The events of a batch that [handle_events] reads: those before the
    first QUIT or ESCAPE. *)
Fixpoint events_read (events : list Game.event) : list Game.event :=
  match events with
  | [] => []
  | e :: rest => if is_quit e then [] else e :: events_read rest
  end.

End Props.

(** * Properties *)

(** ** Comparisons and truncation *)

Lemma Qltb_true (a b : Q) : Py.Qltb a b = true <-> (a < b)%Q.
Proof.
  unfold Py.Qltb. rewrite negb_true_iff.
  split; intro H.
  - apply Qnot_le_lt. intro L. apply Qle_bool_iff in L. congruence.
  - destruct (Qle_bool b a) eqn:E; [|reflexivity].
    apply Qle_bool_iff in E. exfalso. exact (Qlt_not_le _ _ H E).
Qed.

Lemma Qltb_false (a b : Q) : Py.Qltb a b = false <-> (b <= a)%Q.
Proof.
  unfold Py.Qltb. rewrite negb_false_iff. apply Qle_bool_iff.
Qed.

Lemma py_max_cases (a b : Q) :
  (a < b /\ Py.max a b = b)%Q \/ (b <= a /\ Py.max a b = a)%Q.
Proof.
  unfold Py.max. destruct (Py.Qltb a b) eqn:E.
  - left. split; [now apply Qltb_true | reflexivity].
  - right. split; [now apply Qltb_false | reflexivity].
Qed.

Lemma py_min_cases (a b : Q) :
  (b < a /\ Py.min a b = b)%Q \/ (a <= b /\ Py.min a b = a)%Q.
Proof.
  unfold Py.min. destruct (Py.Qltb b a) eqn:E.
  - left. split; [now apply Qltb_true | reflexivity].
  - right. split; [now apply Qltb_false | reflexivity].
Qed.

(** On a non-negative argument [int] is the floor. *)
Lemma py_int_floor (q : Q) : (0 <= q)%Q -> Py.int q = Qfloor q.
Proof.
  destruct q as [n d]. unfold Qle, Py.int, Qfloor. simpl. intro H.
  apply Z.quot_div_nonneg; lia.
Qed.


(** ** Vehicle control *)

Lemma neqb_true (a b : string) : Py.neqb a b = true <-> a <> b.
Proof.
  unfold Py.neqb. rewrite negb_true_iff. apply String.eqb_neq.
Qed.

Lemma neqb_refl (a : string) : Py.neqb a a = false.
Proof.
  unfold Py.neqb. now rewrite String.eqb_refl.
Qed.

Lemma update_controls_last (a : string) (c : Car.t) :
  Car.last_command (Car.update_controls a c) = a.
Proof. reflexivity. Qed.

(** The target lane after a command, spelled out by cases. *)
Lemma update_controls_target (a : string) (c : Car.t) :
  Car.target_lane (Car.update_controls a c) =
    if String.eqb a "BRAKE" then Car.target_lane c
    else if Py.neqb a (Car.last_command c) then
      if String.eqb a "SWIPE_LEFT" && (Car.target_lane c >? 0)
      then Z.max 0 (Car.target_lane c - 1)
      else if String.eqb a "SWIPE_RIGHT" && (Car.target_lane c <? 2)
      then Z.min 2 (Car.target_lane c + 1)
      else Car.target_lane c
    else Car.target_lane c.
Proof. reflexivity. Qed.

(** A command equal to the held one never moves the target lane. *)
Lemma update_controls_repeat (a : string) (c : Car.t) :
  a = Car.last_command c ->
  Car.target_lane (Car.update_controls a c) = Car.target_lane c.
Proof.
  intros ->. rewrite update_controls_target, neqb_refl.
  now destruct (String.eqb _ "BRAKE").
Qed.

(** C2 -- lane-change debounce.  For a vehicle whose target lane is one of
    0, 1, 2 and a command [a] that is SWIPE_LEFT or SWIPE_RIGHT:
    [update_controls a] leaves [target_lane] alone when [a] equals
    [last_command]; when [a] differs it decrements for SWIPE_LEFT, clamped
    at 0, and increments for SWIPE_RIGHT, clamped at 2; a second call with
    the same command changes nothing more; [last_command] is [a] after each
    call.  The example of the specification: from target lane 1 with a held
    command other than SWIPE_LEFT, two SWIPE_LEFT calls give 0 and then 0. *)
Theorem update_controls_debounce :
  forall (c : Car.t) (a : string),
    Props.lane_command a ->
    0 <= Car.target_lane c <= 2 ->
    let c1 := Car.update_controls a c in
    let c2 := Car.update_controls a c1 in
    (Car.target_lane c1 <> Car.target_lane c -> a <> Car.last_command c) /\
    (a <> Car.last_command c -> a = "SWIPE_LEFT"%string ->
       Car.target_lane c1 = Z.max 0 (Car.target_lane c - 1)) /\
    (a <> Car.last_command c -> a = "SWIPE_RIGHT"%string ->
       Car.target_lane c1 = Z.min 2 (Car.target_lane c + 1)) /\
    Car.target_lane c2 = Car.target_lane c1 /\
    Car.last_command c1 = a /\
    Car.last_command c2 = a /\
    (Car.target_lane c = 1 -> a = "SWIPE_LEFT"%string ->
       Car.last_command c <> "SWIPE_LEFT"%string ->
       Car.target_lane c1 = 0 /\ Car.target_lane c2 = 0).
Proof.
  intros c a Ha Hlane c1 c2.
  assert (Hleft : a <> Car.last_command c -> a = "SWIPE_LEFT"%string ->
                  Car.target_lane c1 = Z.max 0 (Car.target_lane c - 1)).
  { intros Hne ->. subst c1. rewrite update_controls_target.
    apply neqb_true in Hne. rewrite Hne. cbn [String.eqb Ascii.eqb Bool.eqb andb].
    destruct (Car.target_lane c >? 0) eqn:E; [reflexivity|].
    rewrite Z.gtb_ltb, Z.ltb_ge in E. lia. }
  assert (Hright : a <> Car.last_command c -> a = "SWIPE_RIGHT"%string ->
                   Car.target_lane c1 = Z.min 2 (Car.target_lane c + 1)).
  { intros Hne ->. subst c1. rewrite update_controls_target.
    apply neqb_true in Hne. rewrite Hne. cbn [String.eqb Ascii.eqb Bool.eqb andb].
    destruct (Car.target_lane c <? 2) eqn:E; [reflexivity|].
    rewrite Z.ltb_ge in E. lia. }
  assert (Hsecond : Car.target_lane c2 = Car.target_lane c1).
  { subst c2. apply update_controls_repeat. reflexivity. }
  repeat split; try assumption; try reflexivity.
  - intros Hchg Heq. apply Hchg. subst c1. now apply update_controls_repeat.
  - rewrite Hleft; [lia | congruence | assumption].
  - rewrite Hsecond, Hleft; [lia | congruence | assumption].
Qed.

Lemma update_controls_debounce_witness :
  Car.target_lane
    (Car.update_controls "SWIPE_LEFT"
       (Car.update_controls "SWIPE_LEFT" (Car.init 300 650 45 70))) = 0.
Proof.
  assert (Hc : Props.lane_command "SWIPE_LEFT") by (left; reflexivity).
  assert (Hl : 0 <= Car.target_lane (Car.init 300 650 45 70) <= 2)
    by (simpl; lia).
  destruct (update_controls_debounce (Car.init 300 650 45 70) "SWIPE_LEFT" Hc Hl)
    as (_ & _ & _ & _ & _ & _ & H).
  apply H; [reflexivity | reflexivity | discriminate].
Defined.

(** ** The vehicle invariant *)

Lemma car_ok_init (x y w h : Z) : Props.car_ok (Car.init x y w h).
Proof.
  unfold Props.car_ok, Car.max_velocity. simpl. repeat split; try lia; lra.
Qed.

Lemma update_controls_velocity (a : string) (c : Car.t) :
  Car.velocity (Car.update_controls a c) = Car.velocity c.
Proof. reflexivity. Qed.

Lemma update_controls_lane (a : string) (c : Car.t) :
  Car.lane (Car.update_controls a c) = Car.lane c.
Proof. reflexivity. Qed.

Lemma update_controls_target_range (a : string) (c : Car.t) :
  0 <= Car.target_lane c <= 2 ->
  0 <= Car.target_lane (Car.update_controls a c) <= 2.
Proof.
  intro H. rewrite update_controls_target.
  repeat match goal with
         | |- context [if ?b then _ else _] => destruct b
         end; lia.
Qed.

Lemma car_ok_update_controls (a : string) (c : Car.t) :
  Props.car_ok c -> Props.car_ok (Car.update_controls a c).
Proof.
  intros (Hl & Ht & Hv). unfold Props.car_ok.
  rewrite update_controls_velocity, update_controls_lane.
  auto using update_controls_target_range.
Qed.

(** Both branches of the lane movement in [Car.update]. *)
Ltac lane_cases :=
  unfold Car.update;
  match goal with
  | |- context [Z.abs ?e >? 3] => destruct (Z.abs e >? 3)
  end.

(** The velocity after a tick, whatever the lane movement does. *)
Lemma update_velocity (dt : Q) (c : Car.t) :
  Car.velocity (Car.update dt c) =
    if Car.braking c then Py.max 0 (Car.velocity c - Car.acceleration * 4)
    else if Py.Qltb (Car.velocity c) Car.default_speed
         then Py.min Car.default_speed (Car.velocity c + Car.acceleration)
         else Car.default_speed.
Proof.
  now lane_cases.
Qed.

Lemma update_target_lane (dt : Q) (c : Car.t) :
  Car.target_lane (Car.update dt c) = Car.target_lane c.
Proof.
  now lane_cases.
Qed.

Lemma update_braking (dt : Q) (c : Car.t) :
  Car.braking (Car.update dt c) = Car.braking c.
Proof.
  now lane_cases.
Qed.

Lemma update_lane (dt : Q) (c : Car.t) :
  Car.lane (Car.update dt c) = Car.lane c \/
  Car.lane (Car.update dt c) = Car.target_lane c.
Proof.
  lane_cases; simpl; auto.
Qed.

Lemma update_velocity_range (dt : Q) (c : Car.t) :
  (0 <= Car.velocity c <= Car.max_velocity)%Q ->
  (0 <= Car.velocity (Car.update dt c) <= Car.max_velocity)%Q.
Proof.
  rewrite update_velocity.
  unfold Car.max_velocity, Car.default_speed, Car.acceleration.
  intros [Hlo Hhi].
  destruct (Car.braking c).
  - destruct (py_max_cases 0 (Car.velocity c - (2 # 10) * 4)) as [[H ->] | [H ->]];
      split; lra.
  - destruct (Py.Qltb (Car.velocity c) 3) eqn:E.
    + destruct (py_min_cases 3 (Car.velocity c + (2 # 10))) as [[H ->] | [H ->]];
        split; lra.
    + split; lra.
Qed.

Lemma car_ok_update (dt : Q) (c : Car.t) :
  Props.car_ok c -> Props.car_ok (Car.update dt c).
Proof.
  intros (Hl & Ht & Hv). unfold Props.car_ok.
  rewrite update_target_lane.
  repeat split; try (apply update_velocity_range; assumption); try lia;
    destruct (update_lane dt c) as [-> | ->]; lia.
Qed.

Lemma car_ok_step (k : Car.call) (c : Car.t) :
  Props.car_ok c -> Props.car_ok (Car.step k c).
Proof.
  destruct k; simpl; auto using car_ok_update_controls, car_ok_update.
Qed.

Lemma car_ok_trace (ks : list Car.call) :
  forall c, Props.car_ok c -> Forall Props.car_ok (Car.trace ks c).
Proof.
  induction ks as [|k ks IH]; intros c Hc; simpl.
  - constructor.
  - constructor; [|apply IH]; now apply car_ok_step.
Qed.

(** C3 -- state invariant.  Along every sequence of [update_controls] and
    [update] calls from the initial vehicle state, the state after each
    call has [lane] and [target_lane] in 0..2 and [velocity] between 0 and
    [max_velocity].  [update] does not read [dt], so no condition on [dt]
    is needed. *)
Theorem car_invariant_every_call :
  forall (x y w h : Z) (ks : list Car.call),
    Forall Props.car_ok (Car.trace ks (Car.init x y w h)) /\
    Props.car_ok (Car.run ks (Car.init x y w h)).
Proof.
  intros x y w h ks. split.
  - apply car_ok_trace, car_ok_init.
  - unfold Car.run. generalize (car_ok_init x y w h).
    generalize (Car.init x y w h). induction ks as [|k ks IH]; intros c Hc.
    + exact Hc.
    + simpl. apply IH. now apply car_ok_step.
Qed.

(** ** Braking *)

Lemma brake_tick_floor (dt : Q) (c : Car.t) :
  Car.braking c = true ->
  (Car.velocity c <= 8 # 10)%Q ->
  Car.velocity (Car.update dt c) = 0%Q.
Proof.
  intros Hb Hv. rewrite update_velocity, Hb.
  unfold Car.acceleration.
  destruct (py_max_cases 0 (Car.velocity c - (2 # 10) * 4)) as [[H _] | [_ ->]];
    [lra | reflexivity].
Qed.

Lemma brake_tick_step (dt : Q) (c : Car.t) :
  Car.braking c = true ->
  Car.velocity (Car.update dt c) = 0%Q \/
  (Car.velocity (Car.update dt c) == Car.velocity c - (8 # 10))%Q.
Proof.
  intros Hb. rewrite update_velocity, Hb.
  unfold Car.acceleration.
  destruct (py_max_cases 0 (Car.velocity c - (2 # 10) * 4)) as [[_ ->] | [_ ->]];
    [right; lra | left; reflexivity].
Qed.

Lemma keeps_braking_step (k : Car.call) (c : Car.t) :
  Props.keeps_braking k -> Car.braking c = true ->
  Car.braking (Car.step k c) = true.
Proof.
  destruct k as [a | dt]; simpl.
  - intros -> _. reflexivity.
  - intros _ Hb. now rewrite update_braking.
Qed.

(** Once stopped, a braking vehicle stays stopped. *)
Lemma brake_stays_stopped (ks : list Car.call) :
  forall c,
    Car.braking c = true -> Car.velocity c = 0%Q ->
    Forall Props.keeps_braking ks ->
    Car.velocity (Car.run ks c) = 0%Q.
Proof.
  unfold Car.run.
  induction ks as [|k ks IH]; intros c Hb Hv Hks; simpl.
  - exact Hv.
  - inversion Hks as [|? ? Hk Hks']; subst.
    apply IH; [now apply keeps_braking_step | | assumption].
    destruct k as [a | dt]; simpl.
    + exact Hv.
    + apply brake_tick_floor; [assumption | rewrite Hv; lra].
Qed.

(** A braking vehicle no faster than [0.8 * n] is stopped after [n] ticks,
    and after any longer run. *)
Lemma brake_stops_after (ks : list Car.call) :
  forall (n : nat) (c : Car.t),
    Car.braking c = true ->
    (Car.velocity c <= (8 # 10) * inject_Z (Z.of_nat n))%Q ->
    (1 <= n)%nat ->
    Forall Props.keeps_braking ks ->
    (n <= Props.count_updates ks)%nat ->
    Car.velocity (Car.run ks c) = 0%Q.
Proof.
  induction ks as [|k ks IH]; intros n c Hb Hv Hn Hks Hcount.
  - simpl in Hcount. lia.
  - inversion Hks as [|? ? Hk Hks']; subst.
    destruct k as [a | dt].
    + change (Car.run (Car.CallControls a :: ks) c)
        with (Car.run ks (Car.update_controls a c)).
      apply (IH n); try assumption.
      now apply (keeps_braking_step (Car.CallControls a)).
    + change (Car.run (Car.CallUpdate dt :: ks) c)
        with (Car.run ks (Car.update dt c)).
      simpl in Hcount.
      assert (Hb' : Car.braking (Car.update dt c) = true)
        by now rewrite update_braking.
      destruct (brake_tick_step dt c Hb) as [Hz | Hstep].
      * now apply brake_stays_stopped.
      * destruct n as [|[|m]]; [lia | |].
        -- apply brake_stays_stopped; try assumption.
           apply brake_tick_floor; [assumption|].
           change (inject_Z (Z.of_nat 1)) with 1%Q in Hv. lra.
        -- apply (IH (S m)); try assumption; try lia.
           rewrite Hstep.
           replace (Z.of_nat (S (S m))) with (Z.of_nat (S m) + 1) in Hv by lia.
           rewrite inject_Z_plus in Hv.
           change (inject_Z 1) with 1%Q in Hv.
           set (b := inject_Z (Z.of_nat (S m))) in *. lra.
Qed.

(** C4 -- braking stop time.  A vehicle at velocity 3 with the brake
    asserted (acceleration 0.2, so 0.8 less per tick) has velocity exactly
    0 after any run that keeps the brake asserted and contains at least
    four [update] calls: it is stopped by the fourth tick and stays
    stopped on every later one. *)
Theorem braking_stops_in_four_ticks :
  forall (c : Car.t) (ks : list Car.call),
    Car.braking c = true ->
    (Car.velocity c == 3)%Q ->
    Forall Props.keeps_braking ks ->
    (4 <= Props.count_updates ks)%nat ->
    (Car.acceleration * 4 == 8 # 10)%Q /\
    Car.velocity (Car.run ks c) = 0%Q.
Proof.
  intros c ks Hb Hv Hks Hcount. split; [reflexivity|].
  apply (brake_stops_after ks 4); try assumption; try lia.
  rewrite Hv. change (inject_Z (Z.of_nat 4)) with 4%Q. lra.
Qed.

Lemma braking_stops_in_four_ticks_witness :
  Car.velocity
    (Car.run (map Car.CallUpdate [1 # 60; 1 # 60; 1 # 60; 1 # 60; 1 # 60]%Q)
       (Car.mk 650 45 70 3 1 1 300 true "BRAKE" "BRAKE")) = 0%Q.
Proof.
  apply braking_stops_in_four_ticks.
  - reflexivity.
  - reflexivity.
  - repeat constructor.
  - simpl. lia.
Defined.

(** ** Commands outside the vocabulary *)

Lemma observe_update (dt : Q) (c1 c2 : Car.t) :
  Props.observe c1 = Props.observe c2 ->
  Props.observe (Car.update dt c1) = Props.observe (Car.update dt c2).
Proof.
  destruct c1, c2. unfold Props.observe. simpl. intro H.
  injection H as -> -> -> -> -> -> -> ->.
  unfold Car.update. simpl.
  destruct (Z.abs _ >? 3); reflexivity.
Qed.

(** Away from BRAKE and the two swipes a command only rewrites the
    command registers and releases the brake. *)
Lemma update_controls_idle (a : string) (c : Car.t) :
  a <> "BRAKE"%string -> ~ Props.lane_command a ->
  Car.target_lane (Car.update_controls a c) = Car.target_lane c /\
  Car.braking (Car.update_controls a c) = false.
Proof.
  intros Hb Hl. rewrite update_controls_target.
  unfold Car.update_controls; cbn [Car.braking].
  apply String.eqb_neq in Hb. rewrite Hb.
  destruct (String.eqb_spec a "SWIPE_LEFT") as [E | _].
  { exfalso. apply Hl. now left. }
  destruct (String.eqb_spec a "SWIPE_RIGHT") as [E | _].
  { exfalso. apply Hl. now right. }
  simpl. now destruct (Py.neqb a (Car.last_command c)).
Qed.

Lemma observe_update_controls (a : string) (c1 c2 : Car.t) :
  Props.similar c1 c2 ->
  Props.observe (Car.update_controls a c1) =
  Props.observe (Car.update_controls a c2).
Proof.
  intros [Hobs Hcmd].
  assert (Hneq : Props.lane_command a ->
                 Py.neqb a (Car.last_command c1) = Py.neqb a (Car.last_command c2)).
  { intro Ha. destruct Hcmd as [-> | [H1 H2]]; [reflexivity|].
    assert (N1 : a <> Car.last_command c1)
      by (intro E; apply H1; rewrite <- E; exact Ha).
    assert (N2 : a <> Car.last_command c2)
      by (intro E; apply H2; rewrite <- E; exact Ha).
    apply neqb_true in N1, N2. congruence. }
  destruct c1, c2. unfold Props.observe in *. simpl in *.
  injection Hobs as -> -> -> -> -> -> -> ->.
  unfold Car.update_controls. simpl.
  destruct (String.eqb_spec a "BRAKE"); [reflexivity|].
  destruct (String.eqb_spec a "SWIPE_LEFT") as [E | _].
  { rewrite Hneq by now left. reflexivity. }
  destruct (String.eqb_spec a "SWIPE_RIGHT") as [E | _].
  { rewrite Hneq by now right. reflexivity. }
  simpl. now destruct (Py.neqb a _), (Py.neqb a _).
Qed.

Lemma similar_step (k : Car.call) (c1 c2 : Car.t) :
  Props.similar c1 c2 -> Props.similar (Car.step k c1) (Car.step k c2).
Proof.
  intro H. destruct k as [a | dt]; simpl.
  - split; [now apply observe_update_controls | left; reflexivity].
  - destruct H as [Hobs Hcmd]. split; [now apply observe_update|].
    assert (L : forall c, Car.last_command (Car.update dt c) = Car.last_command c).
    { intro c. now lane_cases. }
    now rewrite !L.
Qed.

Lemma similar_run (ks : list Car.call) :
  forall c1 c2,
    Props.similar c1 c2 ->
    Props.similar (Car.run ks c1) (Car.run ks c2) /\
    map Props.observe (Car.trace ks c1) = map Props.observe (Car.trace ks c2).
Proof.
  unfold Car.run.
  induction ks as [|k ks IH]; intros c1 c2 H; simpl.
  - split; [exact H | reflexivity].
  - pose proof (similar_step k c1 c2 H) as Hk.
    destruct (IH _ _ Hk) as [Hrun Htrace].
    split; [exact Hrun|]. f_equal; [apply Hk | exact Htrace].
Qed.

Lemma unknown_not_lane (a : string) :
  Props.unknown_command a -> ~ Props.lane_command a.
Proof.
  intros (_ & Hl & Hr & _) [E | E]; congruence.
Qed.

Lemma center_idle (c : Car.t) :
  Car.target_lane (Car.update_controls "CENTER" c) = Car.target_lane c /\
  Car.braking (Car.update_controls "CENTER" c) = false.
Proof.
  apply update_controls_idle; [discriminate | intros [E | E]; discriminate E].
Qed.

Lemma unknown_similar_center (a : string) (c : Car.t) :
  Props.unknown_command a ->
  Props.similar (Car.update_controls a c) (Car.update_controls "CENTER" c).
Proof.
  intro Ha. pose proof (unknown_not_lane a Ha) as Hl.
  destruct Ha as (Hb & _).
  destruct (update_controls_idle a c Hb Hl) as [Ht Hbr].
  destruct (center_idle c) as [Ht' Hbr'].
  split.
  - unfold Props.observe. rewrite Ht, Hbr, Ht', Hbr'. reflexivity.
  - right. rewrite !update_controls_last. split; [exact Hl|].
    intros [E | E]; discriminate E.
Qed.

(** C7 -- unknown commands behave as CENTER.  [update_controls] is a total
    function of its command string, so no input makes it fail.  For a
    command outside BRAKE, SWIPE_LEFT, SWIPE_RIGHT, CENTER, the state it
    yields has the same braking flag, target lane and lane as the state
    CENTER yields, and after any further sequence of calls the two runs
    agree on every observed field, at the end and after every call.
    NO_ACTION is such a command. *)
Theorem unknown_command_as_center :
  forall (c : Car.t) (a : string) (ks : list Car.call),
    Props.unknown_command a ->
    let ca := Car.update_controls a c in
    let cc := Car.update_controls "CENTER" c in
    Car.braking ca = Car.braking cc /\
    Car.target_lane ca = Car.target_lane cc /\
    Car.lane ca = Car.lane cc /\
    Props.observe (Car.run ks ca) = Props.observe (Car.run ks cc) /\
    map Props.observe (Car.trace ks ca) = map Props.observe (Car.trace ks cc) /\
    Props.unknown_command "NO_ACTION".
Proof.
  intros c a ks Ha ca cc.
  pose proof (unknown_similar_center a c Ha) as Hs.
  destruct (similar_run ks _ _ Hs) as [[Hrun _] Htrace].
  pose proof (unknown_not_lane a Ha) as Hl.
  destruct Ha as (Hb & _).
  destruct (update_controls_idle a c Hb Hl) as [Ht Hbr].
  destruct (center_idle c) as [Ht' Hbr'].
  subst ca cc. rewrite Ht, Hbr, Ht', Hbr'.
  repeat split; try assumption; try reflexivity; discriminate.
Qed.

Lemma unknown_command_as_center_witness :
  Props.observe
    (Car.run [Car.CallUpdate (1 # 60); Car.CallControls "SWIPE_LEFT"]
       (Car.update_controls "NO_ACTION" (Car.init 300 650 45 70))) =
  Props.observe
    (Car.run [Car.CallUpdate (1 # 60); Car.CallControls "SWIPE_LEFT"]
       (Car.update_controls "CENTER" (Car.init 300 650 45 70))).
Proof.
  apply (unknown_command_as_center (Car.init 300 650 45 70) "NO_ACTION").
  repeat split; discriminate.
Defined.

(** ** Reset *)

(** C1, as the specification states it, fails: a vehicle that was braking
    is still braking after [reset_position], with BRAKE as its current
    command, and a road that had scrolled keeps its scroll offset through
    [reset]; neither result is the game-start state. *)
Lemma reset_keeps_fields_counterexample :
  let c := Car.update_controls "BRAKE" (Car.init 300 650 45 70) in
  let r := Road.update (1 # 8) 3 Props.quiet_draws (Road.init 600 800) in
  Car.braking (Car.reset_position 300 650 c) = true /\
  Car.braking (Car.init 300 650 45 70) = false /\
  Car.current_command (Car.reset_position 300 650 c) = "BRAKE"%string /\
  Car.current_command (Car.init 300 650 45 70) = "CENTER"%string /\
  (Road.road_y_offset (Road.reset r) == 75 # 2)%Q /\
  (Road.road_y_offset (Road.init 600 800) == 0)%Q /\
  Car.reset_position 300 650 c <> Car.init 300 650 45 70 /\
  Road.reset r <> Road.init 600 800.
Proof.
  cbv zeta. repeat split; try reflexivity.
  - intro H. apply (f_equal Car.braking) in H. discriminate H.
  - intro H. apply (f_equal Road.road_y_offset) in H.
    vm_compute in H. discriminate H.
Qed.

(** C1, amended.  For every prior state and every argument pair, the
    vehicle after [reset_position] is the freshly constructed vehicle
    except that it keeps the prior braking flag and current command, and
    the road after [reset] is the freshly constructed road except that it
    keeps the prior scroll offset.  So lane, target lane, velocity, x, y,
    last command, score, distance, multiplier, obstacle list, spawn timer
    and the effect lists all hold their game-start values. *)
Theorem reset_restores_start_values :
  forall (c : Car.t) (r : Road.t) (x y : Z),
    let c' := Car.reset_position x y c in
    let r' := Road.reset r in
    c' = Props.carry_controls c (Car.init x y (Car.width c) (Car.height c)) /\
    r' = Props.carry_scroll r (Road.init (Road.width r) (Road.height r)) /\
    (Car.lane c' = 1 /\ Car.target_lane c' = 1 /\ Car.velocity c' = 0%Q /\
     Car.x c' = 300 /\ Car.y c' = y /\ Car.last_command c' = "NONE"%string) /\
    (Road.score r' = 0 /\ Road.distance_traveled r' = 0%Q /\
     Road.multiplier r' = 1%Q /\ Road.obstacles r' = [] /\
     Road.obstacle_spawn_timer r' = 0%Q /\
     Road.road_particles r' = [] /\ Road.explosion_effects r' = []) /\
    (Car.braking c' = Car.braking c /\
     Car.current_command c' = Car.current_command c /\
     Road.road_y_offset r' = Road.road_y_offset r).
Proof.
  intros c r x y. cbv zeta. repeat split.
Qed.

(** ** Spawning *)

Lemma choose_type_cases (rand : Q) :
  ((rand < 33 # 100)%Q /\ Road.choose_type rand = "truck"%string) \/
  ((33 # 100 <= rand)%Q /\ (rand < 67 # 100)%Q /\
   Road.choose_type rand = "barrier"%string) \/
  ((67 # 100 <= rand)%Q /\ Road.choose_type rand = "car"%string).
Proof.
  unfold Road.choose_type.
  destruct (Py.Qltb rand (33 # 100)) eqn:E1.
  - left. split; [now apply Qltb_true | reflexivity].
  - apply Qltb_false in E1.
    destruct (Py.Qltb rand (67 # 100)) eqn:E2.
    + right; left. repeat split; [assumption | now apply Qltb_true].
    + right; right. split; [now apply Qltb_false | reflexivity].
Qed.

(** C5 -- spawn postcondition.  [spawn_obstacle] appends exactly one
    obstacle and keeps the others.  With the lane draw in 0..2, as
    [randint(0, num_lanes - 1)] hands out, the new obstacle has width 50,
    height 80, y = -100, is active, and sits at the centre of that lane.
    Its type is truck for a draw below 0.33, barrier for a draw from 0.33
    up to but not including 0.67, car otherwise, and the point values of
    the three types are 20, 5 and 10. *)
Theorem spawn_obstacle_postcondition :
  forall (d : Road.draws) (r : Road.t),
    0 <= Road.spawn_lane d <= Road.num_lanes - 1 ->
    exists o : Obstacle.t,
      Road.obstacles (Road.spawn_obstacle d r) = Road.obstacles r ++ [o] /\
      Obstacle.width o = 50 /\ Obstacle.height o = 80 /\
      Obstacle.y o = (-100)%Q /\ Obstacle.active o = true /\
      (exists lane, (lane = 0 \/ lane = 1 \/ lane = 2) /\
         Obstacle.x o = lane * Road.lane_width + Road.lane_width / 2) /\
      let rand := Road.spawn_rand d in
      ((rand < 33 # 100)%Q ->
         Obstacle.obstacle_type o = "truck"%string /\
         Obstacle.point_value o = Some 20) /\
      ((33 # 100 <= rand)%Q -> (rand < 67 # 100)%Q ->
         Obstacle.obstacle_type o = "barrier"%string /\
         Obstacle.point_value o = Some 5) /\
      ((67 # 100 <= rand)%Q ->
         Obstacle.obstacle_type o = "car"%string /\
         Obstacle.point_value o = Some 10).
Proof.
  intros d r Hlane. unfold Road.num_lanes in Hlane.
  eexists. split; [reflexivity|].
  cbn [Obstacle.width Obstacle.height Obstacle.y Obstacle.active Obstacle.x
       Obstacle.obstacle_type Obstacle.init].
  repeat split.
  - exists (Road.spawn_lane d). split; [lia | reflexivity].
  - destruct (choose_type_cases (Road.spawn_rand d))
      as [[_ E] | [[K _] | [K _]]]; [exact E | lra | lra].
  - unfold Obstacle.point_value. cbn [Obstacle.obstacle_type Obstacle.init].
    destruct (choose_type_cases (Road.spawn_rand d))
      as [[_ E] | [[K _] | [K _]]]; [now rewrite E | lra | lra].
  - destruct (choose_type_cases (Road.spawn_rand d))
      as [[K _] | [(_ & _ & E) | [K _]]]; [lra | exact E | lra].
  - unfold Obstacle.point_value. cbn [Obstacle.obstacle_type Obstacle.init].
    destruct (choose_type_cases (Road.spawn_rand d))
      as [[K _] | [(_ & _ & E) | [K _]]]; [lra | now rewrite E | lra].
  - destruct (choose_type_cases (Road.spawn_rand d))
      as [[K _] | [(_ & K & _) | [_ E]]]; [lra | lra | exact E].
  - unfold Obstacle.point_value. cbn [Obstacle.obstacle_type Obstacle.init].
    destruct (choose_type_cases (Road.spawn_rand d))
      as [[K _] | [(_ & K & _) | [_ E]]]; [lra | lra | now rewrite E].
Qed.

Lemma spawn_obstacle_postcondition_witness :
  exists o : Obstacle.t,
    Road.obstacles (Road.spawn_obstacle Props.quiet_draws (Road.init 600 800))
      = [o] /\
    Obstacle.x o = 300 /\
    Obstacle.obstacle_type o = "barrier"%string /\
    Obstacle.point_value o = Some 5.
Proof.
  assert (Hlane : 0 <= Road.spawn_lane Props.quiet_draws <= Road.num_lanes - 1)
    by (vm_compute; split; discriminate).
  destruct (spawn_obstacle_postcondition Props.quiet_draws (Road.init 600 800) Hlane)
    as (o & Hlist & _ & _ & _ & _ & _ & _ & Hb & _).
  exists o. split; [exact Hlist|].
  assert (Hx : Obstacle.x o = 300).
  { simpl in Hlist. injection Hlist as <-. reflexivity. }
  split; [exact Hx|].
  apply Hb; vm_compute; [discriminate | reflexivity].
Defined.

(** ** Score and distance *)

Lemma update_accounting_fields (dt v : Q) (d : Road.draws) (r : Road.t) :
  let r1 := Road.update_accounting dt v d r in
  Road.score r1 = Road.score r + Py.int (v * dt * 15 * Road.multiplier r) /\
  Road.distance_traveled r1 = (Road.distance_traveled r + v * dt * 15)%Q /\
  Road.multiplier r1 = Road.multiplier r /\
  (Road.obstacles r1 = Road.obstacles r \/
   exists o, Road.obstacles r1 = Road.obstacles r ++ [o] /\
             Obstacle.active o = true /\ Obstacle.y o = (-100)%Q).
Proof.
  unfold Road.update_accounting.
  destruct (Py.Qgeb _ Road.obstacle_spawn_interval); cbn.
  - repeat split. right. eexists. repeat split.
  - repeat split. now left.
Qed.

Lemma update_fields (dt v : Q) (d : Road.draws) (r : Road.t) :
  let r1 := Road.update_accounting dt v d r in
  let r' := Road.update dt v d r in
  Road.score r' = Road.score r1 /\
  Road.distance_traveled r' = Road.distance_traveled r1 /\
  Road.multiplier r' = Road.multiplier r1 /\
  Road.obstacles r' = Road.advance_obstacles dt v (Road.obstacles r1).
Proof.
  cbv zeta. repeat split.
Qed.

(** No road the program builds has a multiplier other than 1. *)
Lemma road_reachable_multiplier (r : Road.t) :
  Props.road_reachable r -> Road.multiplier r = 1%Q.
Proof.
  induction 1 as [w h | dt v d r _ IH | r _ _]; try reflexivity.
  destruct (update_fields dt v d r) as (_ & _ & -> & _).
  destruct (update_accounting_fields dt v d r) as (_ & _ & -> & _).
  exact IH.
Qed.

(** ** Obstacle advance and expiry *)

Lemma obstacle_update_y (dt v : Q) (o : Obstacle.t) :
  Obstacle.y (Obstacle.update dt v o) = (Obstacle.y o + v * dt * 150)%Q.
Proof. reflexivity. Qed.

Lemma obstacle_update_active (dt v : Q) (o : Obstacle.t) :
  Obstacle.active o = true ->
  Obstacle.active (Obstacle.update dt v o) =
  Qle_bool (Obstacle.y (Obstacle.update dt v o)) 800.
Proof.
  intro Ha. unfold Obstacle.update. cbn [Obstacle.active Obstacle.y].
  rewrite Ha. unfold Py.Qltb.
  now destruct (Qle_bool _ 800).
Qed.

Lemma advance_obstacles_filter (dt v : Q) (os : list Obstacle.t) :
  Props.all_active os ->
  Road.advance_obstacles dt v os =
  filter (fun o => Qle_bool (Obstacle.y o) 800) (map (Obstacle.update dt v) os).
Proof.
  unfold Road.advance_obstacles.
  induction 1 as [|o os Ho _ IH]; [reflexivity|].
  cbn [map filter]. rewrite IH, (obstacle_update_active dt v o Ho). reflexivity.
Qed.

Lemma update_accounting_all_active (dt v : Q) (d : Road.draws) (r : Road.t) :
  Props.all_active (Road.obstacles r) ->
  Props.all_active (Road.obstacles (Road.update_accounting dt v d r)).
Proof.
  intro H.
  destruct (update_accounting_fields dt v d r)
    as (_ & _ & _ & [-> | (o & -> & Ho & _)]); [exact H|].
  apply Forall_app. split; [exact H | now constructor].
Qed.

Lemma advance_obstacles_all_active (dt v : Q) (os : list Obstacle.t) :
  Props.all_active (Road.advance_obstacles dt v os).
Proof.
  unfold Props.all_active, Road.advance_obstacles.
  apply Forall_forall. intros o Ho. now apply filter_In in Ho.
Qed.

(** Every obstacle on a road the program builds is active. *)
Lemma road_reachable_all_active (r : Road.t) :
  Props.road_reachable r -> Props.all_active (Road.obstacles r).
Proof.
  induction 1 as [w h | dt v d r _ IH | r _ _]; try constructor.
  destruct (update_fields dt v d r) as (_ & _ & _ & ->).
  apply advance_obstacles_all_active.
Qed.

(** ** Collisions *)

Lemma max0_mul_pos (a b : Z) :
  0 < Z.max 0 a * Z.max 0 b <-> 0 < a /\ 0 < b.
Proof.
  split.
  - intro H.
    destruct (Z.max_spec 0 a) as [[Ha E1] | [Ha E1]];
      destruct (Z.max_spec 0 b) as [[Hb E2] | [Hb E2]];
      rewrite E1, E2 in H; lia.
  - intros [Ha Hb]. rewrite !Z.max_r by lia. now apply Z.mul_pos_pos.
Qed.

(** [colliderect] holds exactly when the intersection has positive area. *)
Lemma colliderect_overlap (A B : Rect.t) :
  Rect.colliderect A B = true <-> 0 < Rect.overlap_area A B.
Proof.
  unfold Rect.overlap_area. rewrite max0_mul_pos.
  unfold Rect.colliderect, Rect.overlap_w, Rect.overlap_h,
    Rect.left, Rect.right, Rect.top, Rect.bottom.
  rewrite !Z.gtb_ltb.
  destruct (Z.eqb_spec (Rect.w A) 0) as [E1 | N1]; simpl.
  { split; [discriminate | lia]. }
  destruct (Z.eqb_spec (Rect.h A) 0) as [E2 | N2]; simpl.
  { split; [discriminate | lia]. }
  destruct (Z.eqb_spec (Rect.w B) 0) as [E3 | N3]; simpl.
  { split; [discriminate | lia]. }
  destruct (Z.eqb_spec (Rect.h B) 0) as [E4 | N4]; simpl.
  { split; [discriminate | lia]. }
  rewrite !andb_true_iff, !Z.ltb_lt. lia.
Qed.

Lemma colliderect_touching (A B : Rect.t) :
  Rect.bottom A <= Rect.top B \/ Rect.bottom B <= Rect.top A \/
  Rect.right A <= Rect.left B \/ Rect.right B <= Rect.left A ->
  Rect.colliderect A B = false.
Proof.
  intro H. destruct (Rect.colliderect A B) eqn:E; [|reflexivity].
  apply colliderect_overlap in E. unfold Rect.overlap_area in E.
  apply max0_mul_pos in E. unfold Rect.overlap_w, Rect.overlap_h in E. lia.
Qed.

Lemma check_collisions_true (car_rect : Rect.t) (r : Road.t) :
  fst (Road.check_collisions car_rect r) = true <->
  exists o, In o (Road.obstacles r) /\ Obstacle.active o = true /\
            Rect.colliderect car_rect (Obstacle.get_rect o) = true.
Proof.
  unfold Road.check_collisions.
  destruct (existsb _ (Road.obstacles r)) eqn:E; simpl.
  - apply existsb_exists in E. destruct E as (o & Ho & Hc).
    apply andb_true_iff in Hc. split; [|reflexivity].
    intros _. exists o. tauto.
  - split; [discriminate|]. intros (o & Ho & Ha & Hc).
    assert (T : existsb
                  (fun o => Obstacle.active o
                            && Rect.colliderect car_rect (Obstacle.get_rect o))
                  (Road.obstacles r) = true).
    { apply existsb_exists. exists o. split; [exact Ho|]. now rewrite Ha, Hc. }
    congruence.
Qed.

(** C10 -- strict collision boundary.  [check_collisions] answers true
    exactly when some listed obstacle is active and its box meets the
    vehicle box in positive area.  Boxes that only touch along an edge or
    at a corner do not collide, and a road whose obstacles are all
    inactive reports no collision.  The vehicle at (300, 650), size 45 by
    70, has its bottom edge at 685: an obstacle whose top edge is at 685
    does not collide, one pixel higher it does. *)
Theorem check_collisions_strict :
  forall (car_rect : Rect.t) (r : Road.t),
    (fst (Road.check_collisions car_rect r) = true <->
       exists o, In o (Road.obstacles r) /\ Obstacle.active o = true /\
                 0 < Rect.overlap_area car_rect (Obstacle.get_rect o)) /\
    ((forall o, In o (Road.obstacles r) ->
        Rect.bottom car_rect <= Rect.top (Obstacle.get_rect o) \/
        Rect.bottom (Obstacle.get_rect o) <= Rect.top car_rect \/
        Rect.right car_rect <= Rect.left (Obstacle.get_rect o) \/
        Rect.right (Obstacle.get_rect o) <= Rect.left car_rect) ->
     fst (Road.check_collisions car_rect r) = false) /\
    ((forall o, In o (Road.obstacles r) -> Obstacle.active o = false) ->
     fst (Road.check_collisions car_rect r) = false) /\
    (let car := Car.get_rect (Car.init 300 650 45 70) in
     let road_with y :=
       Road.set_obstacles [Obstacle.init 300 y 50 80 0 "car" 0]
                          (Road.init 600 800) in
     Rect.bottom car = 685 /\
     Rect.top (Obstacle.get_rect (Obstacle.init 300 725 50 80 0 "car" 0)) = 685 /\
     fst (Road.check_collisions car (road_with 725%Q)) = false /\
     fst (Road.check_collisions car (road_with 724%Q)) = true).
Proof.
  intros car_rect r. split; [|split; [|split]].
  - rewrite check_collisions_true.
    split; intros (o & Ho & Ha & Hc); exists o; repeat split; try assumption;
      now apply colliderect_overlap.
  - intro Htouch.
    destruct (fst (Road.check_collisions car_rect r)) eqn:E; [|reflexivity].
    apply check_collisions_true in E. destruct E as (o & Ho & _ & Hc).
    rewrite (colliderect_touching _ _ (Htouch o Ho)) in Hc. discriminate.
  - intro Hoff.
    destruct (fst (Road.check_collisions car_rect r)) eqn:E; [|reflexivity].
    apply check_collisions_true in E. destruct E as (o & Ho & Ha & _).
    rewrite (Hoff o Ho) in Ha. discriminate.
  - cbv zeta. repeat split; vm_compute; reflexivity.
Qed.

(** ** Game over *)

Lemma update_not_playing (dt : Q) (p : Game.prediction) (d : Road.draws)
      (g : Game.t) :
  Game.game_state g <> "PLAYING"%string -> Game.update dt p d g = g.
Proof.
  intro H. unfold Game.update.
  apply String.eqb_neq in H. now rewrite H.
Qed.

Lemma handle_events_no_restart (events : list Game.event) (g : Game.t) :
  forallb (fun e => match e with
                    | Game.KEYDOWN Game.K_r => false
                    | _ => true
                    end) events = true ->
  snd (Game.handle_events events g) = g.
Proof.
  induction events as [|e es IH]; intro H; [reflexivity|].
  simpl in H. apply andb_true_iff in H. destruct H as [He Hes].
  destruct e as [|[| |]|]; simpl; try reflexivity; try discriminate; auto.
Qed.

Lemma run_frame_game_over (f : Game.frame) (g : Game.t) :
  Game.game_state g = "GAME_OVER"%string ->
  Game.no_restart_key f = true ->
  Game.run_frame f g = g.
Proof.
  intros Hs Hf. unfold Game.run_frame.
  rewrite (handle_events_no_restart _ g Hf).
  apply update_not_playing. rewrite Hs. discriminate.
Qed.

(** C8 -- game-over freeze.  From a game in state GAME_OVER, any number of
    passes of the driver loop whose events do not include the restart key
    leave the whole game object as it was: the vehicle (velocity, lane, x
    and the rest) and the road (score, distance, obstacles and the rest)
    are unchanged and the state stays GAME_OVER.  A single [update] call
    changes nothing either, whatever [dt], prediction and draws it gets.
    [restart_game] is what leaves the state: it sets PLAYING. *)
Theorem game_over_freeze :
  forall (g : Game.t) (fs : list Game.frame),
    Game.game_state g = "GAME_OVER"%string ->
    forallb Game.no_restart_key fs = true ->
    Game.run_frames fs g = g /\
    Game.car (Game.run_frames fs g) = Game.car g /\
    Game.road (Game.run_frames fs g) = Game.road g /\
    Game.game_state (Game.run_frames fs g) = "GAME_OVER"%string /\
    (forall dt p d, Game.update dt p d g = g) /\
    Game.game_state (Game.restart_game g) = "PLAYING"%string.
Proof.
  intros g fs Hs Hfs.
  assert (Hrun : Game.run_frames fs g = g).
  { unfold Game.run_frames.
    induction fs as [|f fs IH]; [reflexivity|].
    simpl in Hfs. apply andb_true_iff in Hfs. destruct Hfs as [Hf Hfs].
    simpl. rewrite (run_frame_game_over f g Hs Hf). now apply IH. }
  rewrite Hrun. repeat split; try assumption.
  intros dt p d. apply update_not_playing. rewrite Hs. discriminate.
Qed.

Lemma game_over_freeze_witness :
  Game.game_state Props.crashed_game = "GAME_OVER"%string /\
  Game.run_frames [Props.idle_frame; Props.idle_frame] Props.crashed_game
  = Props.crashed_game.
Proof.
  assert (Hs : Game.game_state Props.crashed_game = "GAME_OVER"%string)
    by (vm_compute; reflexivity).
  assert (Hk : forallb Game.no_restart_key [Props.idle_frame; Props.idle_frame]
               = true) by reflexivity.
  destruct (game_over_freeze Props.crashed_game
              [Props.idle_frame; Props.idle_frame] Hs Hk) as [Hrun _].
  exact (conj Hs Hrun).
Defined.

(** ** Worked examples *)

(** The overlap test of the specification: same centre collides, an
    obstacle centred at (300, 900) does not. *)
Example collision_same_centre :
  Road.check_collisions
    (Car.get_rect (Car.init 300 650 45 70))
    (Road.set_obstacles [Obstacle.init 300 650 50 80 0 "car" 0]
                        (Road.init 600 800)) = (true, 0).
Proof. reflexivity. Qed.

Example collision_far_ahead :
  Road.check_collisions
    (Car.get_rect (Car.init 300 650 45 70))
    (Road.set_obstacles [Obstacle.init 300 900 50 80 0 "car" 0]
                        (Road.init 600 800)) = (false, 0).
Proof. reflexivity. Qed.

(** Velocities of a braking vehicle over five ticks from 3. *)
Example braking_velocities :
  map (fun c => Qred (Car.velocity c))
      (Car.trace (map Car.CallUpdate [0; 0; 0; 0; 0]%Q)
                 (Car.mk 650 45 70 3 1 1 300 true "BRAKE" "BRAKE"))
  = [11 # 5; 7 # 5; 3 # 5; 0; 0]%Q.
Proof. reflexivity. Qed.

(** Cruise is reached from rest in fifteen ticks and then held. *)
Example cruise_velocity :
  Qred (Car.velocity (Car.run (map Car.CallUpdate (repeat 0%Q 15))
                              (Car.init 300 650 45 70))) = 3%Q /\
  Car.velocity (Car.run (map Car.CallUpdate (repeat 0%Q 16))
                        (Car.init 300 650 45 70)) = 3%Q.
Proof. split; reflexivity. Qed.

(** A lane change to the left: twenty ticks of ten units, then the snap
    and the lane update on the tick after. *)
Example lane_change_left :
  let c := Car.update_controls "SWIPE_LEFT" (Car.init 300 650 45 70) in
  let after n := Car.run (map Car.CallUpdate (repeat 0%Q n)) c in
  (Car.x (after 5%nat), Car.lane (after 5%nat)) = (250, 1) /\
  (Car.x (after 10%nat), Car.lane (after 10%nat)) = (200, 1) /\
  (Car.x (after 20%nat), Car.lane (after 20%nat)) = (100, 1) /\
  (Car.x (after 21%nat), Car.lane (after 21%nat)) = (100, 0).
Proof. cbv zeta. repeat split; reflexivity. Qed.

(** The restart key brings a crashed game back to a playing one with a
    cleared road. *)
Example restart_after_crash :
  let g := snd (Game.handle_events [Game.KEYDOWN Game.K_r] Props.crashed_game) in
  Game.game_state g = "PLAYING"%string /\
  Road.obstacles (Game.road g) = [] /\
  Road.score (Game.road g) = 0 /\
  Car.velocity (Game.car g) = 0%Q.
Proof. vm_compute. repeat split; reflexivity. Qed.

(** * Further properties of the code *)

(** ** Lane commands *)

(** X1 -- one lane at a time.  One command moves the target by at most
    one lane: SWIPE_LEFT never raises it, SWIPE_RIGHT never lowers it, a
    move needs a command that differs from the held one, and no other
    command, BRAKE included, moves it at all. *)
Theorem update_controls_single_lane :
  forall (a : string) (c : Car.t),
    let t := Car.target_lane c in
    let t' := Car.target_lane (Car.update_controls a c) in
    Z.abs (t' - t) <= 1 /\
    (t' < t -> a = "SWIPE_LEFT"%string /\ a <> Car.last_command c) /\
    (t < t' -> a = "SWIPE_RIGHT"%string /\ a <> Car.last_command c) /\
    (~ Props.lane_command a -> t' = t).
Proof.
  intros a c t t'. subst t t'. rewrite update_controls_target.
  destruct (String.eqb_spec a "BRAKE") as [Eb | Nb].
  { subst a. repeat split; try lia. }
  unfold Py.neqb.
  destruct (String.eqb_spec a (Car.last_command c)) as [El | Nl]; simpl.
  { repeat split; try lia. }
  destruct (String.eqb_spec a "SWIPE_LEFT") as [E1 | N1]; simpl.
  { destruct (Car.target_lane c >? 0) eqn:G.
    - rewrite Z.gtb_ltb, Z.ltb_lt in G.
      repeat split; try lia; try assumption.
      intro H. exfalso. apply H. now left.
    - subst a. simpl. destruct (Car.target_lane c <? 2); repeat split; lia. }
  destruct (String.eqb_spec a "SWIPE_RIGHT") as [E2 | N2]; simpl.
  { destruct (Car.target_lane c <? 2) eqn:G.
    - rewrite Z.ltb_lt in G.
      repeat split; try lia; try assumption.
      intro H. exfalso. apply H. now right.
    - repeat split; lia. }
  repeat split; lia.
Qed.

(** ** Lateral movement *)

Lemma py_int_inject (z : Z) : Py.int (inject_Z z) = z.
Proof.
  unfold Py.int, inject_Z. simpl. apply Z.quot_1_r.
Qed.

Lemma update_x (dt : Q) (c : Car.t) :
  Car.x (Car.update dt c) =
    if Z.abs (Car.x c - Props.target_x c) >? 3
    then (if Car.x c <? Props.target_x c
          then Car.x c + Car.lane_change_speed
          else Car.x c - Car.lane_change_speed)
    else Props.target_x c.
Proof.
  unfold Props.target_x. now lane_cases.
Qed.

Lemma update_lane_eq (dt : Q) (c : Car.t) :
  Car.lane (Car.update dt c) =
    if Z.abs (Car.x c - Props.target_x c) >? 3
    then Car.lane c else Car.target_lane c.
Proof.
  unfold Props.target_x. now lane_cases.
Qed.

Lemma update_frame (dt : Q) (c : Car.t) :
  Car.y (Car.update dt c) = Car.y c /\
  Car.width (Car.update dt c) = Car.width c /\
  Car.height (Car.update dt c) = Car.height c /\
  Car.last_command (Car.update dt c) = Car.last_command c.
Proof.
  now lane_cases.
Qed.

Lemma target_x_update (dt : Q) (c : Car.t) :
  Props.target_x (Car.update dt c) = Props.target_x c.
Proof.
  unfold Props.target_x. now rewrite update_target_lane.
Qed.

(** One tick on a vehicle whose distance to the target centre is a
    multiple of the step: it is there already, or ten units closer. *)
Lemma update_x_aligned (dt : Q) (c : Car.t) (k : Z) :
  Car.x c - Props.target_x c = 10 * k ->
  (k = 0 /\ Car.x (Car.update dt c) = Car.x c /\
   Car.lane (Car.update dt c) = Car.target_lane c) \/
  (0 < k /\ Car.x (Car.update dt c) = Car.x c - 10 /\
   Car.lane (Car.update dt c) = Car.lane c) \/
  (k < 0 /\ Car.x (Car.update dt c) = Car.x c + 10 /\
   Car.lane (Car.update dt c) = Car.lane c).
Proof.
  intro Hk. rewrite update_x, update_lane_eq. unfold Car.lane_change_speed.
  destruct (Z.abs (Car.x c - Props.target_x c) >? 3) eqn:G;
    rewrite Z.gtb_ltb in G.
  - apply Z.ltb_lt in G.
    destruct (Z.ltb_spec (Car.x c) (Props.target_x c)).
    + right; right. repeat split; lia.
    + right; left. repeat split; lia.
  - apply Z.ltb_ge in G. left. repeat split; lia.
Qed.

(** The vehicle's position invariant: target lane in range, x between the
    outer lane centres and on the ten-unit grid. *)
Lemma grid_step (k : Car.call) (c : Car.t) :
  (0 <= Car.target_lane c <= 2 /\ 100 <= Car.x c <= 500 /\
   exists m, Car.x c = 10 * m) ->
  (0 <= Car.target_lane (Car.step k c) <= 2 /\
   100 <= Car.x (Car.step k c) <= 500 /\
   exists m, Car.x (Car.step k c) = 10 * m).
Proof.
  intros (Ht & Hx & m & Hm). destruct k as [a | dt]; cbn [Car.step].
  - split; [now apply update_controls_target_range|].
    split; [exact Hx | now exists m].
  - rewrite update_target_lane. split; [exact Ht|].
    assert (Hk : Car.x c - Props.target_x c
                 = 10 * (m - 20 * Car.target_lane c - 10)).
    { unfold Props.target_x, Car.lane_width.
      change (200 / 2) with 100. lia. }
    assert (Htx : 100 <= Props.target_x c <= 500).
    { unfold Props.target_x, Car.lane_width. change (200 / 2) with 100. lia. }
    destruct (update_x_aligned dt c _ Hk) as [(_ & -> & _) | [(P & -> & _) | (P & -> & _)]].
    + split; [exact Hx | now exists m].
    + split; [lia | exists (m - 1); lia].
    + split; [lia | exists (m + 1); lia].
Qed.

Lemma frame_step (k : Car.call) (c : Car.t) :
  Car.y (Car.step k c) = Car.y c /\
  Car.width (Car.step k c) = Car.width c /\
  Car.height (Car.step k c) = Car.height c.
Proof.
  destruct k as [a | dt]; simpl; [repeat split|].
  destruct (update_frame dt c) as (-> & -> & -> & _). auto.
Qed.

(** X2 -- the vehicle stays on the road.  After any sequence of calls from
    the constructed vehicle, x lies between the centres of the outer
    lanes and on the ten-unit grid of the lane centres, the snap at the
    end of a lane change therefore moves nothing (one tick never shifts x
    by more than ten), y and the size are as constructed, and the box of
    a vehicle no wider than a lane lies inside the 600-unit road. *)
Theorem car_stays_on_road :
  forall (x y w h : Z) (ks : list Car.call),
    let c := Car.run ks (Car.init x y w h) in
    100 <= Car.x c <= 500 /\
    Car.x c mod 10 = 0 /\
    Car.y c = y /\ Car.width c = w /\ Car.height c = h /\
    (forall dt, Z.abs (Car.x (Car.update dt c) - Car.x c) <= 10) /\
    (0 <= w <= Car.lane_width ->
     0 <= Rect.left (Car.get_rect c) /\
     Rect.right (Car.get_rect c) <= Road.num_lanes * Road.lane_width).
Proof.
  intros x y w h ks c.
  assert (Inv : (0 <= Car.target_lane c <= 2 /\ 100 <= Car.x c <= 500 /\
                 exists m, Car.x c = 10 * m) /\
                Car.y c = y /\ Car.width c = w /\ Car.height c = h).
  { subst c. unfold Car.run.
    assert (I0 : (0 <= Car.target_lane (Car.init x y w h) <= 2 /\
                  100 <= Car.x (Car.init x y w h) <= 500 /\
                  exists m, Car.x (Car.init x y w h) = 10 * m) /\
                 Car.y (Car.init x y w h) = y /\
                 Car.width (Car.init x y w h) = w /\
                 Car.height (Car.init x y w h) = h).
    { simpl. repeat split; try lia. exists 30. reflexivity. }
    revert I0. generalize (Car.init x y w h).
    induction ks as [|k ks IH]; intros c0 I0; [exact I0|].
    simpl. apply IH. destruct I0 as (G & Hy & Hw & Hh).
    split; [now apply grid_step|].
    destruct (frame_step k c0) as (-> & -> & ->). auto. }
  destruct Inv as ((Ht & Hx & m & Hm) & Hy & Hw & Hh).
  split; [exact Hx|]. split; [rewrite Hm, Z.mul_comm; apply Z_mod_mult|].
  split; [exact Hy|]. split; [exact Hw|]. split; [exact Hh|]. split.
  - intro dt.
    assert (Hk : Car.x c - Props.target_x c
                 = 10 * (m - 20 * Car.target_lane c - 10)).
    { unfold Props.target_x, Car.lane_width.
      change (200 / 2) with 100. lia. }
    destruct (update_x_aligned dt c _ Hk)
      as [(_ & -> & _) | [(_ & -> & _) | (_ & -> & _)]]; lia.
  - intro Hwide. unfold Car.lane_width in Hwide.
    unfold Rect.left, Rect.right, Car.get_rect, Rect.make, Rect.x, Rect.w.
    rewrite py_int_inject, Hw.
    unfold Road.num_lanes, Road.lane_width.
    assert (0 <= w / 2 <= 100).
    { split; [apply Z.div_pos; lia | apply Z.div_le_upper_bound; lia]. }
    assert (w <= 2 * (w / 2) + 1).
    { pose proof (Z.mod_pos_bound w 2 ltac:(lia)).
      pose proof (Z.div_mod w 2 ltac:(lia)). lia. }
    lia.
Qed.

Lemma update_controls_no_swipe (a : string) (c : Car.t) :
  ~ Props.lane_command a ->
  Car.target_lane (Car.update_controls a c) = Car.target_lane c.
Proof.
  intro Ha. destruct (String.eqb_spec a "BRAKE") as [-> | Nb].
  - reflexivity.
  - now apply update_controls_idle.
Qed.

Lemma keeps_target_step (k : Car.call) (c : Car.t) :
  Props.keeps_target k ->
  Car.target_lane (Car.step k c) = Car.target_lane c /\
  Props.target_x (Car.step k c) = Props.target_x c.
Proof.
  intro Hk. unfold Props.target_x.
  destruct k as [a | dt]; cbn [Car.step].
  - rewrite (update_controls_no_swipe a c Hk). auto.
  - rewrite update_target_lane. auto.
Qed.

(** An arrived vehicle stays where it is while no swipe comes in. *)
Lemma arrived_stays (ks : list Car.call) :
  forall c,
    Car.x c = Props.target_x c -> Car.lane c = Car.target_lane c ->
    Forall Props.keeps_target ks ->
    Car.x (Car.run ks c) = Props.target_x c /\
    Car.lane (Car.run ks c) = Car.target_lane c /\
    Car.target_lane (Car.run ks c) = Car.target_lane c.
Proof.
  unfold Car.run.
  induction ks as [|k ks IH]; intros c Hx Hl Hks; [auto|].
  inversion Hks as [|? ? Hk Hks']; subst. simpl.
  destruct (keeps_target_step k c Hk) as [Ht Htx].
  rewrite <- Ht, <- Htx. apply IH; [| |assumption].
  - rewrite Htx. destruct k as [a | dt]; cbn [Car.step]; [exact Hx|].
    assert (Hk0 : Car.x c - Props.target_x c = 10 * 0) by lia.
    destruct (update_x_aligned dt c 0 Hk0)
      as [(_ & -> & _) | [(P & _) | (P & _)]]; [exact Hx | lia | lia].
  - rewrite Ht. destruct k as [a | dt]; cbn [Car.step]; [exact Hl|].
    assert (Hk0 : Car.x c - Props.target_x c = 10 * 0) by lia.
    destruct (update_x_aligned dt c 0 Hk0)
      as [(_ & _ & ->) | [(P & _) | (P & _)]]; [reflexivity | lia | lia].
Qed.

Lemma arrives_within (ks : list Car.call) :
  forall (n : nat) (c : Car.t) (k : Z),
    Car.x c - Props.target_x c = 10 * k ->
    Z.abs k <= Z.of_nat n ->
    Forall Props.keeps_target ks ->
    (S n <= Props.count_updates ks)%nat ->
    Car.x (Car.run ks c) = Props.target_x c /\
    Car.lane (Car.run ks c) = Car.target_lane c /\
    Car.target_lane (Car.run ks c) = Car.target_lane c.
Proof.
  induction ks as [|call ks IH]; intros n c k Hk Hn Hks Hcount.
  - simpl in Hcount. lia.
  - inversion Hks as [|? ? Hcall Hks']; subst.
    destruct (keeps_target_step call c Hcall) as [Ht Htx].
    change (Car.run (call :: ks) c) with (Car.run ks (Car.step call c)).
    destruct call as [a | dt].
    + rewrite <- Ht, <- Htx. apply (IH n _ k); try assumption.
      rewrite Htx. exact Hk.
    + cbn [Car.step] in *. cbn [Props.count_updates] in Hcount.
      destruct (update_x_aligned dt c k Hk)
        as [(K & Ex & El) | [(K & Ex & El) | (K & Ex & El)]].
      * rewrite <- Ht, <- Htx.
        apply arrived_stays; [| |assumption].
        -- rewrite Htx, Ex. lia.
        -- rewrite Ht. exact El.
      * rewrite <- Ht, <- Htx.
        destruct n as [|n]; [lia|].
        apply (IH n _ (k - 1)); try assumption; lia.
      * rewrite <- Ht, <- Htx.
        destruct n as [|n]; [lia|].
        apply (IH n _ (k + 1)); try assumption; lia.
Qed.

(** X3 -- a lane change completes.  A vehicle whose distance to the centre
    of its target lane is ten times [k] is at that centre, with [lane]
    equal to [target_lane], after any run without swipes that contains
    more than [|k|] ticks, and stays there for the rest of the run.  From
    a neighbouring lane that is twenty moves and the snap: 21 ticks. *)
Theorem lane_change_completes :
  forall (c : Car.t) (k : Z) (n : nat) (ks : list Car.call),
    Car.x c - Props.target_x c = 10 * k ->
    Z.abs k <= Z.of_nat n ->
    Forall Props.keeps_target ks ->
    (S n <= Props.count_updates ks)%nat ->
    Car.x (Car.run ks c) = Props.target_x c /\
    Car.lane (Car.run ks c) = Car.target_lane c /\
    Car.target_lane (Car.run ks c) = Car.target_lane c.
Proof.
  intros c k n ks. apply arrives_within.
Qed.

Lemma lane_change_completes_witness :
  let c := Car.update_controls "SWIPE_RIGHT" (Car.init 300 650 45 70) in
  let c' := Car.run (map Car.CallUpdate (repeat (1 # 60)%Q 21)) c in
  Car.x c' = 500 /\ Car.lane c' = 2.
Proof.
  intros c c'.
  assert (Hk : Car.x c - Props.target_x c = 10 * (-20)) by reflexivity.
  assert (Hn : Z.abs (-20) <= Z.of_nat 20) by (vm_compute; discriminate).
  assert (Hks : Forall Props.keeps_target
                  (map Car.CallUpdate (repeat (1 # 60)%Q 21)))
    by (repeat constructor).
  assert (Hc : (21 <= Props.count_updates
                        (map Car.CallUpdate (repeat (1 # 60)%Q 21)))%nat)
    by (vm_compute; lia).
  destruct (lane_change_completes c (-20) 20 _ Hk Hn Hks Hc) as (Hx & Hl & _).
  split; [exact Hx | exact Hl].
Defined.

(** X4 -- off the grid the vehicle never arrives.  With a distance to the
    target centre of 4, 5 or 6 units, each tick overshoots to the other
    side, still 4 to 6 units away: through any run without swipes the
    vehicle is never at the centre and [lane] is never updated. *)
Theorem misaligned_never_arrives :
  forall (c : Car.t) (ks : list Car.call),
    3 < Z.abs (Car.x c - Props.target_x c) < 7 ->
    Forall Props.keeps_target ks ->
    3 < Z.abs (Car.x (Car.run ks c) - Props.target_x c) < 7 /\
    Car.lane (Car.run ks c) = Car.lane c /\
    Forall (fun s => Car.x s <> Props.target_x c) (Car.trace ks c).
Proof.
  intros c ks. revert c.
  induction ks as [|k ks IH]; intros c Hd Hks.
  - unfold Car.run. simpl. repeat split; try lia. constructor.
  - inversion Hks as [|? ? Hk Hks']; subst.
    destruct (keeps_target_step k c Hk) as [Ht Htx].
    change (Car.run (k :: ks) c) with (Car.run ks (Car.step k c)).
    assert (Hstep : 3 < Z.abs (Car.x (Car.step k c) - Props.target_x c) < 7 /\
                    Car.lane (Car.step k c) = Car.lane c).
    { destruct k as [a | dt]; cbn [Car.step]; [split; [exact Hd | reflexivity]|].
      rewrite update_x, update_lane_eq. unfold Car.lane_change_speed.
      destruct (Z.abs (Car.x c - Props.target_x c) >? 3) eqn:G;
        rewrite Z.gtb_ltb in G; [|apply Z.ltb_ge in G; lia].
      split; [|reflexivity].
      destruct (Z.ltb_spec (Car.x c) (Props.target_x c)); lia. }
    destruct Hstep as [Hd' Hl'].
    rewrite <- Htx in Hd'.
    destruct (IH (Car.step k c) Hd' Hks') as (H1 & H2 & H3).
    rewrite Htx in H1, H3. rewrite Htx in Hd'.
    repeat split; try lia; try congruence.
    cbn [Car.trace]. constructor; [|exact H3].
    intro E. rewrite E in Hd'. lia.
Qed.

Lemma misaligned_never_arrives_witness :
  let c := Car.mk 650 45 70 3 1 1 305 false "CENTER" "CENTER" in
  Car.lane (Car.run (map Car.CallUpdate (repeat 0%Q 50)) c) = 1 /\
  Car.x (Car.run (map Car.CallUpdate (repeat 0%Q 50)) c) <> 300.
Proof.
  intro c.
  assert (Hd : 3 < Z.abs (Car.x c - Props.target_x c) < 7)
    by (vm_compute; split; reflexivity).
  assert (Hks : Forall Props.keeps_target (map Car.CallUpdate (repeat 0%Q 50)))
    by (repeat constructor).
  destruct (misaligned_never_arrives c _ Hd Hks) as (Hx & Hl & _).
  split; [exact Hl|].
  intro E. rewrite E in Hx. vm_compute in Hx. destruct Hx as [Hx _].
  discriminate Hx.
Defined.

(** ** Cruise speed *)

Lemma cruise_bound_step (k : Car.call) (c : Car.t) :
  (0 <= Car.velocity c <= Car.default_speed)%Q ->
  (0 <= Car.velocity (Car.step k c) <= Car.default_speed)%Q.
Proof.
  destruct k as [a | dt]; cbn [Car.step]; [auto|].
  rewrite update_velocity.
  unfold Car.default_speed, Car.acceleration. intros [Hlo Hhi].
  destruct (Car.braking c).
  - destruct (py_max_cases 0 (Car.velocity c - (2 # 10) * 4))
      as [[H ->] | [H ->]]; split; lra.
  - destruct (Py.Qltb (Car.velocity c) 3) eqn:E; [|split; lra].
    destruct (py_min_cases 3 (Car.velocity c + (2 # 10)))
      as [[H ->] | [H ->]]; split; lra.
Qed.

(** X5 -- the cruise speed is the real ceiling.  After any sequence of
    calls from the constructed vehicle the velocity lies between 0 and
    [default_speed] = 3; [max_velocity] = 6 is never approached. *)
Theorem velocity_never_exceeds_cruise :
  forall (x y w h : Z) (ks : list Car.call),
    (0 <= Car.velocity (Car.run ks (Car.init x y w h)) <= Car.default_speed)%Q /\
    (Car.default_speed < Car.max_velocity)%Q.
Proof.
  intros x y w h ks. split; [|reflexivity].
  unfold Car.run.
  assert (I0 : (0 <= Car.velocity (Car.init x y w h) <= Car.default_speed)%Q)
    by (simpl; unfold Car.default_speed; split; lra).
  revert I0. generalize (Car.init x y w h).
  induction ks as [|k ks IH]; intros c Hc; [exact Hc|].
  simpl. apply IH. now apply cruise_bound_step.
Qed.

Lemma keeps_released_step (k : Car.call) (c : Car.t) :
  Props.keeps_released k -> Car.braking c = false ->
  Car.braking (Car.step k c) = false.
Proof.
  destruct k as [a | dt]; cbn [Car.step Props.keeps_released].
  - intros Ha _. unfold Car.update_controls; cbn [Car.braking].
    now apply String.eqb_neq.
  - intros _ Hb. now rewrite update_braking.
Qed.

Lemma release_tick (dt : Q) (c : Car.t) :
  Car.braking c = false ->
  Car.velocity (Car.update dt c) = Car.default_speed \/
  ((Car.velocity (Car.update dt c) == Car.velocity c + (2 # 10))%Q /\
   (Car.velocity c + (2 # 10) < 3)%Q).
Proof.
  intro Hb. rewrite update_velocity, Hb.
  unfold Car.acceleration.
  destruct (Py.Qltb (Car.velocity c) Car.default_speed); [|now left].
  destruct (py_min_cases Car.default_speed (Car.velocity c + (2 # 10)))
    as [[H ->] | [_ ->]]; [right | now left].
  unfold Car.default_speed in H. split; [reflexivity | exact H].
Qed.

Lemma cruise_held (ks : list Car.call) :
  forall c,
    Car.braking c = false -> Car.velocity c = Car.default_speed ->
    Forall Props.keeps_released ks ->
    Car.velocity (Car.run ks c) = Car.default_speed.
Proof.
  unfold Car.run.
  induction ks as [|k ks IH]; intros c Hb Hv Hks; [exact Hv|].
  inversion Hks as [|? ? Hk Hks']; subst. simpl.
  apply IH; [now apply keeps_released_step | | assumption].
  destruct k as [a | dt]; cbn [Car.step]; [exact Hv|].
  destruct (release_tick dt c Hb) as [E | [_ H]]; [exact E|].
  rewrite Hv in H. unfold Car.default_speed in H. lra.
Qed.

Lemma cruise_reached_after (ks : list Car.call) :
  forall (n : nat) (c : Car.t),
    Car.braking c = false ->
    (3 - (2 # 10) * inject_Z (Z.of_nat n) <= Car.velocity c)%Q ->
    (1 <= n)%nat ->
    Forall Props.keeps_released ks ->
    (n <= Props.count_updates ks)%nat ->
    Car.velocity (Car.run ks c) = Car.default_speed.
Proof.
  induction ks as [|k ks IH]; intros n c Hb Hv Hn Hks Hcount.
  - simpl in Hcount. lia.
  - inversion Hks as [|? ? Hk Hks']; subst.
    pose proof (keeps_released_step k c Hk Hb) as Hb'.
    change (Car.run (k :: ks) c) with (Car.run ks (Car.step k c)).
    destruct k as [a | dt]; cbn [Car.step] in *.
    + apply (IH n); assumption.
    + cbn [Props.count_updates] in Hcount.
      destruct (release_tick dt c Hb) as [E | [E Hlt]].
      * now apply cruise_held.
      * destruct n as [|[|m]]; [lia | |].
        -- change (inject_Z (Z.of_nat 1)) with 1%Q in Hv. lra.
        -- apply (IH (S m)); try assumption; try lia.
           rewrite E.
           replace (Z.of_nat (S (S m))) with (Z.of_nat (S m) + 1) in Hv by lia.
           rewrite inject_Z_plus in Hv.
           change (inject_Z 1) with 1%Q in Hv.
           set (b := inject_Z (Z.of_nat (S m))) in *. lra.
Qed.

(** X6 -- reaching cruise.  A vehicle with the brake released and a
    velocity that is not negative has velocity exactly [default_speed]
    after any run without BRAKE that contains at least fifteen ticks, and
    on every later tick of such a run. *)
Theorem cruise_reached_in_fifteen_ticks :
  forall (c : Car.t) (ks : list Car.call),
    Car.braking c = false ->
    (0 <= Car.velocity c)%Q ->
    Forall Props.keeps_released ks ->
    (15 <= Props.count_updates ks)%nat ->
    Car.velocity (Car.run ks c) = Car.default_speed.
Proof.
  intros c ks Hb Hv Hks Hcount.
  apply (cruise_reached_after ks 15); try assumption; try lia.
  change (inject_Z (Z.of_nat 15)) with 15%Q. lra.
Qed.

Lemma cruise_reached_in_fifteen_ticks_witness :
  Car.velocity
    (Car.run (map Car.CallUpdate (repeat (1 # 60)%Q 15))
       (Car.update_controls "CENTER" (Car.init 300 650 45 70)))
  = Car.default_speed.
Proof.
  apply cruise_reached_in_fifteen_ticks.
  - reflexivity.
  - vm_compute. discriminate.
  - repeat constructor.
  - vm_compute. lia.
Defined.

(** ** Road clocks and obstacle population *)

Lemma update_clocks (dt v : Q) (d : Road.draws) (r : Road.t) :
  let offset := (Road.road_y_offset r + v * dt * 100)%Q in
  let timer := (Road.obstacle_spawn_timer r + dt * 1000)%Q in
  let r' := Road.update dt v d r in
  Road.road_y_offset r' =
    (if Py.Qltb Road.line_spacing offset then 0%Q else offset) /\
  Road.obstacle_spawn_timer r' =
    (if Py.Qgeb timer Road.obstacle_spawn_interval then 0%Q else timer) /\
  Road.obstacles (Road.update_accounting dt v d r) =
    (if Py.Qgeb timer Road.obstacle_spawn_interval
     then Road.obstacles (Road.spawn_obstacle d r)
     else Road.obstacles r) /\
  Road.width r' = Road.width r /\ Road.height r' = Road.height r.
Proof.
  cbv zeta. unfold Road.update, Road.update_particles, Road.set_obstacles,
    Road.update_accounting.
  destruct (Py.Qgeb _ Road.obstacle_spawn_interval); cbn; repeat split.
Qed.




Lemma choose_type_known (rand : Q) :
  Road.choose_type rand = "truck"%string \/
  Road.choose_type rand = "barrier"%string \/
  Road.choose_type rand = "car"%string.
Proof.
  destruct (choose_type_cases rand) as [[_ E] | [(_ & _ & E) | [_ E]]]; auto.
Qed.

Lemma obstacle_ok_advance (dt v : Q) (os : list Obstacle.t) :
  (0 <= dt)%Q -> (0 <= v)%Q ->
  Forall Props.obstacle_ok os ->
  Forall Props.obstacle_ok (Road.advance_obstacles dt v os).
Proof.
  intros Hdt Hv Hos.
  assert (Hvd : (0 <= v * dt * 150)%Q).
  { apply Qmult_le_0_compat; [apply Qmult_le_0_compat; assumption | lra]. }
  unfold Road.advance_obstacles. apply Forall_forall. intros o Ho.
  apply filter_In in Ho. destruct Ho as [Hmem Hact].
  apply in_map_iff in Hmem. destruct Hmem as (o0 & <- & Ho0).
  rewrite Forall_forall in Hos.
  destruct (Hos o0 Ho0) as (Ha & Hp & Hw & Hh & Hx & Hy & Hty).
  rewrite (obstacle_update_active dt v o0 Ha) in Hact.
  apply Qle_bool_iff in Hact. rewrite obstacle_update_y in Hact.
  unfold Props.obstacle_ok. rewrite obstacle_update_y.
  repeat split; try assumption; try lra.
  rewrite (obstacle_update_active dt v o0 Ha), obstacle_update_y.
  now apply Qle_bool_iff.
Qed.

Lemma road_played_obstacles (r : Road.t) :
  Props.road_played r -> Forall Props.obstacle_ok (Road.obstacles r).
Proof.
  induction 1 as [w h | dt v d r _ IH Hdt Hv Hlane | r _ _];
    try (simpl; constructor).
  destruct (update_fields dt v d r) as (_ & _ & _ & ->).
  apply obstacle_ok_advance; try assumption.
  destruct (update_clocks dt v d r) as (_ & _ & -> & _).
  destruct (Py.Qgeb _ Road.obstacle_spawn_interval); [|exact IH].
  unfold Road.spawn_obstacle, Road.set_obstacles. cbn [Road.obstacles].
  apply Forall_app. split; [exact IH|]. constructor; [|constructor].
  unfold Props.obstacle_ok, Obstacle.init.
  cbn [Obstacle.active Obstacle.points_awarded Obstacle.width Obstacle.height
       Obstacle.x Obstacle.y Obstacle.obstacle_type].
  unfold Road.num_lanes, Road.lane_width in *. change (200 / 2) with 100.
  repeat split; try lia; try lra.
  apply choose_type_known.
Qed.

(** X8 -- what the road holds.  On every road of a game in play, each
    listed obstacle is active, not yet awarded, 50 by 80, centred on one
    of the three lanes, of a type the points table knows, and has its y
    between the spawn height -100 and the bottom boundary 800: obstacles
    never move up and none is kept past the boundary. *)
Theorem road_obstacles_well_formed :
  forall r : Road.t,
    Props.road_played r ->
    Forall Props.obstacle_ok (Road.obstacles r) /\
    (forall o, In o (Road.obstacles r) -> Obstacle.point_value o <> None).
Proof.
  intros r Hr. pose proof (road_played_obstacles r Hr) as Hok.
  split; [exact Hok|].
  intros o Ho. rewrite Forall_forall in Hok.
  destruct (Hok o Ho) as (_ & _ & _ & _ & _ & _ & Hty).
  unfold Obstacle.point_value.
  destruct Hty as [-> | [-> | ->]]; discriminate.
Qed.

Lemma road_obstacles_well_formed_witness :
  Forall Props.obstacle_ok
    (Road.obstacles (Road.update 2 3 Props.quiet_draws (Road.init 600 800))).
Proof.
  apply road_obstacles_well_formed.
  apply Props.played_update.
  - apply Props.played_init.
  - vm_compute. discriminate.
  - vm_compute. discriminate.
  - vm_compute. split; discriminate.
Defined.

(** ** Score against distance *)




(** ** Points for an obstacle *)

(** X10 -- points are awarded once.  For an obstacle as the road holds it,
    [award_points] raises no [KeyError]; it returns the table value of
    the obstacle's type (truck 20, barrier 5, car 10) times the
    multiplier, adds that to the score and flags the obstacle.  A further
    call on the flagged obstacle, on any road, returns 0 and leaves score
    and obstacle as they are.  For a type outside the table the first
    call is a [KeyError]. *)
Theorem award_points_once :
  forall (o : Obstacle.t) (r : Road.t),
    Props.obstacle_ok o ->
    (exists (a : Road.award) (value : Z),
       Road.award_points o r = Some a /\
       Obstacle.point_value o = Some value /\
       (Obstacle.obstacle_type o = "truck"%string -> value = 20) /\
       (Obstacle.obstacle_type o = "barrier"%string -> value = 5) /\
       (Obstacle.obstacle_type o = "car"%string -> value = 10) /\
       Road.award_returned a = (inject_Z value * Road.multiplier r)%Q /\
       Road.award_score a =
         (inject_Z (Road.score r) + Road.award_returned a)%Q /\
       Obstacle.points_awarded (Road.award_obstacle a) = true /\
       forall r',
         Road.award_points (Road.award_obstacle a) r' =
         Some (Road.mkAward 0 (inject_Z (Road.score r'))
                            (Road.award_obstacle a))) /\
    (forall o', Obstacle.points_awarded o' = false ->
                Obstacle.point_value o' = None ->
                Road.award_points o' r = None).
Proof.
  intros o r (Ha & Hp & Hw & Hh & Hx & Hy & Hty). split.
  - unfold Road.award_points. rewrite Hp. cbn [negb].
    unfold Obstacle.point_value.
    destruct Hty as [E | [E | E]]; rewrite E; cbn;
      eexists; eexists; (split; [reflexivity|]);
      (split; [reflexivity|]);
      repeat split; try reflexivity; try discriminate.
  - intros o' Hp' Hv'. unfold Road.award_points. now rewrite Hp', Hv'.
Qed.

Lemma award_points_once_witness :
  exists a,
    Road.award_points (Obstacle.init 300 0 50 80 0 "truck" 0)
                      (Road.init 600 800) = Some a /\
    (Road.award_returned a == 20)%Q /\ (Road.award_score a == 20)%Q.
Proof.
  assert (Hok : Props.obstacle_ok (Obstacle.init 300 0 50 80 0 "truck" 0)).
  { unfold Props.obstacle_ok. cbn.
    repeat split; try (vm_compute; discriminate); auto. }
  destruct (award_points_once (Obstacle.init 300 0 50 80 0 "truck" 0)
              (Road.init 600 800) Hok)
    as [(a & value & Hcall & Hval & Htruck & _ & _ & Hret & Hscore & _) _].
  exists a. split; [exact Hcall|].
  assert (Hv : value = 20) by (apply Htruck; reflexivity).
  rewrite Hscore, Hret, Hv. split; reflexivity.
Defined.

(** ** Events *)

(** A batch leaves the game alone or restarts it, and it can restart
    only a game that is over. *)
Lemma handle_events_cases (events : list Game.event) :
  forall g,
    (Game.game_state g <> "GAME_OVER"%string ->
     snd (Game.handle_events events g) = g) /\
    (snd (Game.handle_events events g) = g \/
     snd (Game.handle_events events g) = Game.restart_game g).
Proof.
  induction events as [|e es IH]; intro g; [simpl; auto|].
  destruct (IH g) as [Hplay Hor].
  destruct (IH (Game.restart_game g)) as [Hplay' _].
  destruct e as [|[| |]|]; cbn [Game.handle_events snd]; auto.
  destruct (String.eqb_spec (Game.game_state g) "GAME_OVER") as [E | N].
  - split; [congruence|]. right. apply Hplay'. simpl. discriminate.
  - auto.
Qed.

(** X11 -- what an event batch can do.  [handle_events] answers [False]
    exactly when the batch holds a QUIT or an ESCAPE key.  It changes the
    game only by restarting it, and only when the game is over and the R
    key comes before the first QUIT or ESCAPE; R pressed during play, or
    after a QUIT in the same batch, does nothing. *)
Theorem handle_events_outcome :
  forall (events : list Game.event) (g : Game.t),
    fst (Game.handle_events events g) = negb (existsb Props.is_quit events) /\
    (Game.game_state g <> "GAME_OVER"%string ->
       snd (Game.handle_events events g) = g) /\
    (Game.game_state g = "GAME_OVER"%string ->
       snd (Game.handle_events events g) =
         if existsb Props.is_restart (Props.events_read events)
         then Game.restart_game g else g).
Proof.
  induction events as [|e es IH]; intro g.
  - simpl. repeat split; reflexivity.
  - destruct (IH g) as (Hf & Hplay & Hover).
    destruct (IH (Game.restart_game g)) as (Hf' & Hplay' & _).
    assert (Hr : Game.game_state (Game.restart_game g) <> "GAME_OVER"%string)
      by (simpl; discriminate).
    destruct e as [|[| |]|]; cbn [Game.handle_events Props.events_read
        Props.is_quit Props.is_restart existsb orb negb fst snd];
      try (repeat split; try reflexivity; assumption).
    destruct (String.eqb_spec (Game.game_state g) "GAME_OVER") as [E | N].
    + repeat split; [exact Hf' | congruence | intros _; now apply Hplay'].
    + repeat split; [exact Hf | exact Hplay | congruence].
Qed.

(** ** High score and game state *)

Lemma handle_events_keeps (events : list Game.event) (g : Game.t) :
  Props.game_ok g ->
  Props.game_ok (snd (Game.handle_events events g)) /\
  Game.high_score (snd (Game.handle_events events g)) = Game.high_score g.
Proof.
  intro Hok.
  destruct (handle_events_cases events g) as [_ [-> | ->]]; [auto|].
  split; [left; reflexivity | reflexivity].
Qed.

Lemma update_keeps (dt : Q) (p : Game.prediction) (d : Road.draws) (g : Game.t) :
  Props.game_ok g ->
  Props.game_ok (Game.update dt p d g) /\
  Game.high_score g <= Game.high_score (Game.update dt p d g).
Proof.
  intro Hok. unfold Game.update.
  destruct (String.eqb_spec (Game.game_state g) "PLAYING") as [E | N];
    [|split; [exact Hok | lia]].
  cbv zeta. unfold Props.game_ok.
  cbn [Game.game_state Game.road Game.high_score].
  set (car' := Car.update dt _).
  set (road' := Road.update dt _ d _).
  destruct (fst (Road.check_collisions (Car.get_rect car') road')); cbn [andb].
  - destruct (Road.get_score road' >? Game.high_score g) eqn:G.
    + rewrite Z.gtb_ltb, Z.ltb_lt in G. unfold Road.get_score in *.
      split; [right; split; [reflexivity | lia] | lia].
    + rewrite Z.gtb_ltb, Z.ltb_ge in G. unfold Road.get_score in *.
      split; [right; split; [reflexivity | lia] | lia].
  - split; [left; exact E | lia].
Qed.

(** X12 -- state and high score.  Through any passes of the loop, from a
    game that is playing or properly over: the state is always PLAYING or
    GAME_OVER, a game that is over has its final score recorded
    ([high_score] at least the road's score), and [high_score] never goes
    down, restarts included. *)
Theorem high_score_kept :
  forall (g : Game.t) (fs : list Game.frame),
    Props.game_ok g ->
    let g' := Game.run_frames fs g in
    (Game.game_state g' = "PLAYING"%string \/
     Game.game_state g' = "GAME_OVER"%string) /\
    (Game.game_state g' = "GAME_OVER"%string ->
     Road.get_score (Game.road g') <= Game.high_score g') /\
    Game.high_score g <= Game.high_score g'.
Proof.
  intros g fs Hok g'.
  assert (H : Props.game_ok g' /\ Game.high_score g <= Game.high_score g').
  { subst g'. unfold Game.run_frames. revert g Hok.
    induction fs as [|f fs IH]; intros g Hok; [split; [exact Hok | simpl; lia]|].
    simpl.
    destruct (handle_events_keeps (Game.frame_events f) g Hok) as [Hok1 Hh1].
    destruct (update_keeps (Game.frame_dt f) (Game.frame_prediction f)
                (Game.frame_draws f) _ Hok1) as [Hok2 Hh2].
    destruct (IH _ Hok2) as [Hok3 Hh3].
    split; [exact Hok3|]. unfold Game.run_frame in *. lia. }
  destruct H as [Hok' Hh]. split; [|split; [|exact Hh]].
  - destruct Hok' as [E | [E _]]; auto.
  - intro E. destruct Hok' as [E' | [_ Hs]]; [congruence | exact Hs].
Qed.

Lemma high_score_kept_witness :
  Road.get_score (Game.road Props.crashed_game)
    <= Game.high_score Props.crashed_game /\
  0 <= Game.high_score Props.crashed_game.
Proof.
  assert (Hok : Props.game_ok (Game.init (6 # 10))) by (left; reflexivity).
  destruct (high_score_kept (Game.init (6 # 10))
              (repeat Props.idle_frame 30) Hok) as (_ & Hover & Hmono).
  split; [|exact Hmono].
  apply Hover. vm_compute. reflexivity.
Defined.

(** ** A restarted game replays like a new one *)

Lemma forget_controls_update_controls (a : string) (c1 c2 : Car.t) :
  Props.forget_controls c1 = Props.forget_controls c2 ->
  Car.update_controls a c1 = Car.update_controls a c2.
Proof.
  destruct c1, c2. unfold Props.forget_controls. simpl. intro H.
  injection H as -> -> -> -> -> -> -> ->. reflexivity.
Qed.

Lemma forget_controls_reset (x y : Z) (c1 c2 : Car.t) :
  Props.forget_controls c1 = Props.forget_controls c2 ->
  Props.forget_controls (Car.reset_position x y c1) =
  Props.forget_controls (Car.reset_position x y c2).
Proof.
  destruct c1, c2. unfold Props.forget_controls. simpl. intro H.
  injection H as -> -> -> -> -> -> -> ->. reflexivity.
Qed.

Lemma forget_scroll_update (dt v : Q) (d : Road.draws) (r1 r2 : Road.t) :
  Props.forget_scroll r1 = Props.forget_scroll r2 ->
  Props.forget_scroll (Road.update dt v d r1) =
  Props.forget_scroll (Road.update dt v d r2) /\
  Road.obstacles (Road.update dt v d r1) =
  Road.obstacles (Road.update dt v d r2) /\
  Road.score (Road.update dt v d r1) = Road.score (Road.update dt v d r2).
Proof.
  destruct r1, r2. unfold Props.forget_scroll. simpl. intro H.
  injection H as -> -> -> -> -> -> -> -> ->.
  unfold Road.update, Road.update_particles, Road.set_obstacles,
    Road.update_accounting, Props.forget_scroll.
  cbn [Road.width Road.height Road.road_y_offset Road.obstacles
       Road.obstacle_spawn_timer Road.score Road.distance_traveled
       Road.multiplier Road.road_particles Road.explosion_effects].
  destruct (Py.Qgeb _ Road.obstacle_spawn_interval); cbn; repeat split.
Qed.

Lemma forget_scroll_reset (r1 r2 : Road.t) :
  Props.forget_scroll r1 = Props.forget_scroll r2 ->
  Props.forget_scroll (Road.reset r1) = Props.forget_scroll (Road.reset r2).
Proof.
  destruct r1, r2. unfold Props.forget_scroll. simpl. intro H.
  injection H as -> -> -> -> -> -> -> -> ->. reflexivity.
Qed.

Lemma check_collisions_obstacles (rect : Rect.t) (r1 r2 : Road.t) :
  Road.obstacles r1 = Road.obstacles r2 ->
  Road.check_collisions rect r1 = Road.check_collisions rect r2.
Proof.
  unfold Road.check_collisions. now intros ->.
Qed.

Lemma replay_restart (g1 g2 : Game.t) :
  Props.replay_equal g1 g2 ->
  Props.replay_equal (Game.restart_game g1) (Game.restart_game g2) /\
  (Game.car g1 = Game.car g2 ->
   Game.car (Game.restart_game g1) = Game.car (Game.restart_game g2)).
Proof.
  intros (Hc & Hr & Hi & Ht & Hp & Hs). split.
  - unfold Props.replay_equal. cbn.
    repeat split; try assumption.
    + now apply forget_controls_reset.
    + now apply forget_scroll_reset.
  - cbn. now intros ->.
Qed.

Lemma replay_handle_events (events : list Game.event) :
  forall g1 g2,
    Props.replay_equal g1 g2 ->
    Props.replay_equal (snd (Game.handle_events events g1))
                       (snd (Game.handle_events events g2)) /\
    (Game.car g1 = Game.car g2 ->
     Game.car (snd (Game.handle_events events g1)) =
     Game.car (snd (Game.handle_events events g2))).
Proof.
  induction events as [|e es IH]; intros g1 g2 H; [simpl; auto|].
  pose proof H as (_ & _ & _ & _ & _ & Hs).
  destruct e as [|[| |]|]; cbn [Game.handle_events snd]; auto.
  rewrite Hs.
  destruct (String.eqb (Game.game_state g2) "GAME_OVER"); [|auto].
  destruct (replay_restart g1 g2 H) as [H' Hcar].
  destruct (IH _ _ H') as [H1 H2]. auto.
Qed.

(** After [update] two games that play alike still do, and if they were
    playing their vehicles are now equal in every field. *)
Lemma replay_update (dt : Q) (p : Game.prediction) (d : Road.draws)
      (g1 g2 : Game.t) :
  Props.replay_equal g1 g2 ->
  Props.replay_equal (Game.update dt p d g1) (Game.update dt p d g2) /\
  (Game.game_state g1 = "PLAYING"%string \/ Game.car g1 = Game.car g2 ->
   Game.car (Game.update dt p d g1) = Game.car (Game.update dt p d g2)).
Proof.
  intros H. pose proof H as (Hc & Hr & Hi & Ht & Hp & Hs).
  unfold Game.update. rewrite Hs.
  destruct (String.eqb_spec (Game.game_state g2) "PLAYING") as [E | N].
  - cbv zeta. rewrite Hi, Ht, Hp.
    destruct (Py.Qgeb (Game.time_since_last_prediction g2 + dt)
                      (Game.prediction_interval g2));
      match goal with
      | |- context [Car.update_controls ?a (Game.car g1)] =>
          rewrite (forget_controls_update_controls a _ _ Hc)
      end;
      set (car' := Car.update dt _);
      destruct (forget_scroll_update dt (Car.velocity car') d _ _ Hr)
        as (Hr' & Hobs & Hscore);
      rewrite (check_collisions_obstacles (Car.get_rect car') _ _ Hobs);
      (split; [|reflexivity]);
      unfold Props.replay_equal;
      cbn [Game.car Game.road Game.prediction_interval
           Game.time_since_last_prediction Game.pending_action Game.game_state];
      repeat split; exact Hr'.
  - split; [exact H|]. intros [E | E]; [congruence | exact E].
Qed.

Lemma replay_frame (f : Game.frame) (g1 g2 : Game.t) :
  Props.replay_equal g1 g2 ->
  Game.game_state g1 = "PLAYING"%string \/ Game.car g1 = Game.car g2 ->
  Props.replay_equal (Game.run_frame f g1) (Game.run_frame f g2) /\
  Game.car (Game.run_frame f g1) = Game.car (Game.run_frame f g2).
Proof.
  intros H Hor. unfold Game.run_frame.
  destruct (replay_handle_events (Game.frame_events f) g1 g2 H) as [H1 Hcar].
  destruct (replay_update (Game.frame_dt f) (Game.frame_prediction f)
              (Game.frame_draws f) _ _ H1) as [H2 Hcar2].
  split; [exact H2|]. apply Hcar2.
  destruct Hor as [E | E]; [|right; auto].
  left.
  destruct (handle_events_cases (Game.frame_events f) g1) as [Hplay _].
  rewrite Hplay; [exact E | rewrite E; discriminate].
Qed.

Lemma replay_frames (fs : list Game.frame) :
  forall g1 g2,
    Props.replay_equal g1 g2 ->
    Game.game_state g1 = "PLAYING"%string \/ Game.car g1 = Game.car g2 ->
    Props.replay_equal (Game.run_frames fs g1) (Game.run_frames fs g2) /\
    (fs <> [] ->
     Game.car (Game.run_frames fs g1) = Game.car (Game.run_frames fs g2)).
Proof.
  unfold Game.run_frames.
  induction fs as [|f fs IH]; intros g1 g2 H Hor.
  - split; [exact H | congruence].
  - simpl. destruct (replay_frame f g1 g2 H Hor) as [H1 Hcar].
    destruct (IH _ _ H1 (or_intror Hcar)) as [H2 Hcar2].
    split; [exact H2|]. intros _.
    destruct fs as [|f' fs']; [exact Hcar | apply Hcar2; discriminate].
Qed.

(** X13 -- a restart is as good as a new game.  [restart_game] leaves the
    braking flag, the current command and the scroll offset as they
    were, yet for the game's vehicle and road sizes the restarted game
    and a newly constructed one with the same prediction interval, fed
    the same passes of the loop, keep the same state, prediction clock,
    held action, obstacles, score, distance and vehicle; after the first
    pass the vehicles agree in every field, the leftovers included. *)
Theorem restart_replays_like_new :
  forall (g : Game.t) (fs : list Game.frame),
    Car.width (Game.car g) = 45 -> Car.height (Game.car g) = 70 ->
    Road.width (Game.road g) = Game.SCREEN_WIDTH ->
    Road.height (Game.road g) = Game.SCREEN_HEIGHT ->
    let restarted := Game.run_frames fs (Game.restart_game g) in
    let fresh := Game.run_frames fs (Game.init (Game.prediction_interval g)) in
    Props.replay_equal restarted fresh /\
    Road.obstacles (Game.road restarted) = Road.obstacles (Game.road fresh) /\
    Road.score (Game.road restarted) = Road.score (Game.road fresh) /\
    Road.distance_traveled (Game.road restarted)
      = Road.distance_traveled (Game.road fresh) /\
    (fs <> [] -> Game.car restarted = Game.car fresh).
Proof.
  intros g fs Hw Hh Hrw Hrh restarted fresh.
  assert (H0 : Props.replay_equal (Game.restart_game g)
                 (Game.init (Game.prediction_interval g))).
  { unfold Props.replay_equal, Props.forget_controls, Props.forget_scroll.
    cbn. rewrite Hw, Hh, Hrw, Hrh. repeat split. }
  destruct (replay_frames fs _ _ H0 (or_introl eq_refl)) as [H Hcar].
  fold restarted fresh in H, Hcar.
  split; [exact H|].
  destruct H as (_ & Hr & _).
  split; [exact (f_equal Road.obstacles Hr)|].
  split; [exact (f_equal Road.score Hr)|].
  split; [exact (f_equal Road.distance_traveled Hr) | exact Hcar].
Qed.

Lemma restart_replays_like_new_witness :
  Game.car (Game.run_frames [Props.idle_frame]
              (Game.restart_game Props.crashed_game))
  = Game.car (Game.run_frames [Props.idle_frame] (Game.init (6 # 10))).
Proof.
  assert (Hw : Car.width (Game.car Props.crashed_game) = 45)
    by (vm_compute; reflexivity).
  assert (Hh : Car.height (Game.car Props.crashed_game) = 70)
    by (vm_compute; reflexivity).
  assert (Hrw : Road.width (Game.road Props.crashed_game) = Game.SCREEN_WIDTH)
    by (vm_compute; reflexivity).
  assert (Hrh : Road.height (Game.road Props.crashed_game) = Game.SCREEN_HEIGHT)
    by (vm_compute; reflexivity).
  destruct (restart_replays_like_new Props.crashed_game [Props.idle_frame]
              Hw Hh Hrw Hrh) as (_ & _ & _ & _ & Hcar).
  assert (Hne : [Props.idle_frame] <> []) by discriminate.
  exact (Hcar Hne).
Defined.

(** ** The classifier's answer *)

Lemma predict_action_cases (model_output : option (list Q)) :
  Game.action (Predictor.predict model_output) = "SWIPE_LEFT"%string \/
  Game.action (Predictor.predict model_output) = "CENTER"%string \/
  Game.action (Predictor.predict model_output) = "SWIPE_RIGHT"%string.
Proof.
  unfold Predictor.predict.
  destruct model_output as [row|]; [|simpl; auto].
  destruct (Predictor.argmax row) as [i|]; [|simpl; auto].
  unfold Predictor.action_map, Predictor.lookup.
  destruct (i =? 0); [simpl; auto|].
  destruct (i =? 1); [simpl; auto|].
  destruct (i =? 2); simpl; auto.
Qed.

(** X14 -- the classifier cannot ask for the brake.  Whatever the network
    produces, and also when it fails, [predict] returns SWIPE_LEFT,
    CENTER or SWIPE_RIGHT, never BRAKE; a failure gives CENTER with
    confidence 0.  On a three-class row the action is that of the first
    largest entry, the confidence is that entry and the row is handed
    back unchanged.  [get_action_name] maps 0 and 2 to the swipes and
    every other index to CENTER. *)
Theorem predict_in_vocabulary :
  forall model_output : option (list Q),
    let p := Predictor.predict model_output in
    (Game.action p = "SWIPE_LEFT"%string \/ Game.action p = "CENTER"%string \/
     Game.action p = "SWIPE_RIGHT"%string) /\
    Game.action p <> "BRAKE"%string /\
    (model_output = None \/ model_output = Some [] ->
     p = Predictor.fallback /\ Game.confidence p = 0%Q) /\
    (forall a b c, model_output = Some [a; b; c] ->
       Game.predictions p = [a; b; c] /\
       (a <= Game.confidence p /\ b <= Game.confidence p /\
        c <= Game.confidence p)%Q /\
       (Game.action p = "SWIPE_LEFT"%string ->
          Game.confidence p = a /\ (b <= a)%Q /\ (c <= a)%Q) /\
       (Game.action p = "CENTER"%string ->
          Game.confidence p = b /\ (a < b)%Q /\ (c <= b)%Q) /\
       (Game.action p = "SWIPE_RIGHT"%string ->
          Game.confidence p = c /\ (a < c)%Q /\ (b < c)%Q)) /\
    (forall i, Predictor.get_action_name i =
               if i =? 0 then "SWIPE_LEFT"%string
               else if i =? 2 then "SWIPE_RIGHT"%string
               else "CENTER"%string).
Proof.
  intros mo p.
  assert (Hvoc : Game.action p = "SWIPE_LEFT"%string \/
                 Game.action p = "CENTER"%string \/
                 Game.action p = "SWIPE_RIGHT"%string).
  { subst p. apply predict_action_cases. }
  split; [exact Hvoc|]. split.
  { destruct Hvoc as [E | [E | E]]; rewrite E; discriminate. }
  split.
  { intros [-> | ->]; subst p; split; reflexivity. }
  split.
  - intros a b c ->. subst p. unfold Predictor.predict, Predictor.argmax.
    cbn [Predictor.argmax_from].
    destruct (Py.Qltb a b) eqn:Eab.
    + apply Qltb_true in Eab.
      destruct (Py.Qltb b c) eqn:Ebc.
      * apply Qltb_true in Ebc. cbn;
          try change (Pos.to_nat 2) with 2%nat;
          try change (Pos.to_nat 1) with 1%nat; cbn.
        repeat split; try discriminate; try lra.
      * apply Qltb_false in Ebc. cbn;
          try change (Pos.to_nat 2) with 2%nat;
          try change (Pos.to_nat 1) with 1%nat; cbn.
        repeat split; try discriminate; try lra.
    + apply Qltb_false in Eab.
      destruct (Py.Qltb a c) eqn:Eac.
      * apply Qltb_true in Eac. cbn;
          try change (Pos.to_nat 2) with 2%nat;
          try change (Pos.to_nat 1) with 1%nat; cbn.
        repeat split; try discriminate; try lra.
      * apply Qltb_false in Eac. cbn;
          try change (Pos.to_nat 2) with 2%nat;
          try change (Pos.to_nat 1) with 1%nat; cbn.
        repeat split; try discriminate; try lra.
  - intro i. unfold Predictor.get_action_name, Predictor.action_map,
      Predictor.lookup.
    destruct (Z.eqb_spec i 0) as [-> | N0]; [reflexivity|].
    destruct (Z.eqb_spec i 1) as [-> | N1]; [reflexivity|].
    destruct (Z.eqb_spec i 2) as [-> | N2]; reflexivity.
Qed.

Lemma brake_free_handle_events (events : list Game.event) (g : Game.t) :
  Car.braking (Game.car g) = false ->
  Game.pending_action g <> "BRAKE"%string ->
  Car.braking (Game.car (snd (Game.handle_events events g))) = false /\
  Game.pending_action (snd (Game.handle_events events g)) <> "BRAKE"%string.
Proof.
  intros Hb Hp.
  destruct (handle_events_cases events g) as [_ [-> | ->]]; [auto|].
  split; [exact Hb | simpl; discriminate].
Qed.

Lemma brake_free_update (dt : Q) (p : Game.prediction) (d : Road.draws)
      (g : Game.t) :
  Game.action p <> "BRAKE"%string ->
  Car.braking (Game.car g) = false ->
  Game.pending_action g <> "BRAKE"%string ->
  Car.braking (Game.car (Game.update dt p d g)) = false /\
  Game.pending_action (Game.update dt p d g) <> "BRAKE"%string.
Proof.
  intros Ha Hb Hp. unfold Game.update.
  destruct (String.eqb (Game.game_state g) "PLAYING"); [|auto].
  cbv zeta. cbn [Game.car Game.pending_action].
  rewrite update_braking.
  destruct (Py.Qgeb _ (Game.prediction_interval g));
    unfold Car.update_controls; cbn [Car.braking];
    (split; [now apply String.eqb_neq | assumption]).
Qed.

(** X15 -- a game driven by the classifier never brakes.  From the
    constructed game, through any passes of the loop whose predictions
    are answers of [predict], the held action is never BRAKE and the
    vehicle's braking flag is never set. *)
Theorem classifier_game_never_brakes :
  forall (interval : Q) (fs : list Game.frame),
    Forall (fun f => exists model_output,
                Game.frame_prediction f = Predictor.predict model_output) fs ->
    let g := Game.run_frames fs (Game.init interval) in
    Car.braking (Game.car g) = false /\
    Game.pending_action g <> "BRAKE"%string.
Proof.
  intros interval fs Hfs. cbv zeta. unfold Game.run_frames.
  assert (I0 : Car.braking (Game.car (Game.init interval)) = false /\
               Game.pending_action (Game.init interval) <> "BRAKE"%string)
    by (split; [reflexivity | discriminate]).
  revert I0. generalize (Game.init interval).
  induction Hfs as [|f fs (mo & Hf) _ IH]; intros g [Hb Hp]; [auto|].
  simpl. apply IH. unfold Game.run_frame.
  destruct (brake_free_handle_events (Game.frame_events f) g Hb Hp) as [Hb1 Hp1].
  apply brake_free_update; try assumption.
  rewrite Hf.
  destruct (predict_action_cases mo) as [E | [E | E]]; rewrite E; discriminate.
Qed.

Lemma classifier_game_never_brakes_witness :
  Car.braking
    (Game.car
       (Game.run_frames
          [Game.mkFrame (7 # 10) []
             (Predictor.predict (Some [1 # 10; 2 # 10; 7 # 10]%Q))
             Props.quiet_draws]
          (Game.init (6 # 10)))) = false.
Proof.
  apply classifier_game_never_brakes.
  constructor; [|constructor].
  exists (Some [1 # 10; 2 # 10; 7 # 10]%Q). reflexivity.
Defined.

(** ** Training scenarios *)

Lemma choice_two (i : nat) (a b : Z) :
  (i < 2)%nat -> Dataset.choice i [a; b] = a \/ Dataset.choice i [a; b] = b.
Proof.
  intro H. destruct i as [|[|i]]; [now left | now right | lia].
Qed.

Lemma scenario_cases :
  forall (car_y : Z) (d : Dataset.draws),
    Props.scenario_draws_ok d ->
    (exists lane y,
       Dataset.generate_scenario car_y "left" d = (lane, [(lane, y)]) /\
       1 <= lane <= 2 /\ car_y - 400 <= y <= car_y - 150) /\
    (exists lane y,
       Dataset.generate_scenario car_y "right" d = (lane, [(lane, y)]) /\
       0 <= lane <= 1 /\ car_y - 400 <= y <= car_y - 150) /\
    (exists lane configs,
       Dataset.generate_scenario car_y "no_action" d = (lane, configs) /\
       0 <= lane <= 2 /\ (List.length configs <= 1)%nat /\
       forall l y, In (l, y) configs ->
         l <> lane /\ 0 <= l <= 2 /\ car_y - 400 <= y <= car_y - 150) /\
    (forall label,
       label <> "left"%string -> label <> "right"%string ->
       label <> "no_action"%string ->
       Dataset.generate_scenario car_y label d = (1, [])).
Proof.
  intros car_y d (Hlane & Hidx & Hdist).
  split; [|split; [|split]].
  - eexists. eexists. split; [reflexivity|].
    destruct (choice_two (Dataset.choice_index d) 1 2 Hidx) as [-> | ->]; lia.
  - eexists. eexists. split; [reflexivity|].
    destruct (choice_two (Dataset.choice_index d) 0 1 Hidx) as [-> | ->]; lia.
  - unfold Dataset.generate_scenario.
    cbn [String.eqb Ascii.eqb Bool.eqb].
    assert (Hf : exists a b,
               filter (fun l => negb (l =? Dataset.lane_draw d)) [0; 1; 2]
               = [a; b] /\
               a <> Dataset.lane_draw d /\ b <> Dataset.lane_draw d /\
               0 <= a <= 2 /\ 0 <= b <= 2).
    { assert (Hcases : Dataset.lane_draw d = 0 \/ Dataset.lane_draw d = 1 \/
                       Dataset.lane_draw d = 2) by lia.
      destruct Hcases as [E | [E | E]]; rewrite E.
      - exists 1, 2. repeat split; (reflexivity || lia).
      - exists 0, 2. repeat split; (reflexivity || lia).
      - exists 0, 1. repeat split; (reflexivity || lia). }
    destruct Hf as (a & b & Ef & Ha & Hb & Ra & Rb). rewrite Ef.
    change (Z.of_nat (List.length [a; b]) >? 0) with true.
    rewrite andb_true_r.
    destruct (Py.Qltb (Dataset.roll d) (6 # 10)).
    + eexists. eexists. split; [reflexivity|].
      split; [lia|]. split; [simpl; lia|].
      intros l y [Hin | []]. injection Hin as <- <-.
      destruct (choice_two (Dataset.choice_index d) a b Hidx) as [-> | ->]; lia.
    + eexists. eexists. split; [reflexivity|].
      split; [lia|]. split; [simpl; lia|]. intros l y [].
  - intros label Hl Hr Hn. unfold Dataset.generate_scenario.
    apply String.eqb_neq in Hl, Hr, Hn. now rewrite Hn, Hl, Hr.
Qed.

(** X16 -- a scenario matches its label.  With draws the [random] module
    can give: for the label left the vehicle is in lane 1 or 2, for
    right in lane 0 or 1, so the lane to move to exists, and the single
    obstacle is in the vehicle's own lane, 150 to 400 units ahead; for
    no_action the vehicle is in any lane and there is at most one
    obstacle, never in the vehicle's lane; any other label gives the
    centre lane and no obstacle. *)
Theorem generate_scenario_matches_label :
  forall (car_y : Z) (d : Dataset.draws),
    Props.scenario_draws_ok d ->
    (exists lane y,
       Dataset.generate_scenario car_y "left" d = (lane, [(lane, y)]) /\
       1 <= lane <= 2 /\ car_y - 400 <= y <= car_y - 150) /\
    (exists lane y,
       Dataset.generate_scenario car_y "right" d = (lane, [(lane, y)]) /\
       0 <= lane <= 1 /\ car_y - 400 <= y <= car_y - 150) /\
    (exists lane configs,
       Dataset.generate_scenario car_y "no_action" d = (lane, configs) /\
       0 <= lane <= 2 /\ (List.length configs <= 1)%nat /\
       forall l y, In (l, y) configs ->
         l <> lane /\ 0 <= l <= 2 /\ car_y - 400 <= y <= car_y - 150) /\
    (forall label,
       label <> "left"%string -> label <> "right"%string ->
       label <> "no_action"%string ->
       Dataset.generate_scenario car_y label d = (1, [])).
Proof.
  exact scenario_cases.
Qed.

Lemma generate_scenario_matches_label_witness :
  exists lane y,
    Dataset.generate_scenario 650 "left" (Dataset.mkDraws 0 (1 # 2) 1 200)
    = (lane, [(lane, y)]) /\
    1 <= lane <= 2 /\ 650 - 400 <= y <= 650 - 150.
Proof.
  assert (Hd : Props.scenario_draws_ok (Dataset.mkDraws 0 (1 # 2) 1 200)).
  { unfold Props.scenario_draws_ok. simpl. lia. }
  exact (proj1 (generate_scenario_matches_label 650 _ Hd)).
Defined.

Lemma py_int_sub (a b : Z) : Py.int (inject_Z a - inject_Z b) = a - b.
Proof.
  unfold Qminus. rewrite <- inject_Z_opp, <- inject_Z_plus. apply py_int_inject.
Qed.

Lemma custom_rect (x y : Z) (speed anim : Q) (ty : string) :
  Obstacle.get_rect (Obstacle.init x (inject_Z y) 50 80 speed ty anim)
  = Rect.mk (x - 25) (y - 40) 50 80.
Proof.
  unfold Obstacle.get_rect, Obstacle.init, Rect.make.
  cbn [Obstacle.x Obstacle.y Obstacle.width Obstacle.height].
  change (50 / 2) with 25. change (80 / 2) with 40.
  now rewrite py_int_inject, py_int_sub.
Qed.

Lemma positioned_rect (lane : Z) (c : Car.t) :
  Props.game_car c ->
  Car.get_rect (Dataset.position_car lane c)
  = Rect.mk (lane * 200 + 100 - 22) 615 45 70.
Proof.
  intros (Hy & Hw & Hh).
  unfold Car.get_rect, Dataset.position_car, Rect.make.
  cbn [Car.x Car.y Car.width Car.height].
  rewrite Hy, Hw, Hh, !py_int_inject. reflexivity.
Qed.

(** One custom obstacle against the positioned vehicle: no collision when
    the lanes differ or the obstacle is at least 150 units ahead. *)
Lemma scene_clear (lane obs_lane y : Z) (anim : nat -> Q) (c : Car.t)
      (r : Road.t) :
  Props.game_car c ->
  (0 <= lane <= 2 /\ 0 <= obs_lane <= 2) ->
  lane <> obs_lane \/ y <= 500 ->
  Road.check_collisions
    (Car.get_rect (Dataset.position_car lane c))
    (Dataset.create_custom_obstacles anim [(obs_lane, y)] r) = (false, 0).
Proof.
  intros Hc Hl Hsep. unfold Road.check_collisions.
  rewrite (positioned_rect lane c Hc).
  unfold Dataset.create_custom_obstacles, Road.set_obstacles.
  cbn [Road.obstacles Dataset.custom_obstacles existsb].
  rewrite custom_rect. unfold Road.lane_width. change (200 / 2) with 100.
  rewrite colliderect_touching; [reflexivity|].
  unfold Rect.bottom, Rect.top, Rect.left, Rect.right.
  cbn [Rect.x Rect.y Rect.w Rect.h]. lia.
Qed.

(** X17 -- no generated scene shows a crash.  For the generator's vehicle
    (at y = 650, 45 by 70) and draws the [random] module can give, the
    scene set up for any label, and the centre-obstacle scene of the
    augmentation, has no collision between the vehicle and the
    obstacles. *)
Theorem generated_scenes_never_collide :
  forall (label : string) (d : Dataset.draws) (anim : nat -> Q)
         (c : Car.t) (r : Road.t),
    Props.game_car c ->
    (Props.scenario_draws_ok d ->
     let scene := Dataset.place_scene label d anim c r in
     Road.check_collisions (Car.get_rect (fst scene)) (snd scene) = (false, 0)) /\
    (Props.center_draws_ok d ->
     let scene := Dataset.place_center_scene d anim c r in
     Road.check_collisions (Car.get_rect (fst scene)) (snd scene) = (false, 0)).
Proof.
  intros label d anim c r Hc. pose proof Hc as (Hy & _). split.
  - intros Hd. pose proof Hd as (Hlane & Hidx & Hdist).
    destruct (scenario_cases (Car.y c) d Hd)
      as ((l1 & y1 & E1 & Hl1 & Hy1) & (l2 & y2 & E2 & Hl2 & Hy2) &
          (l3 & cfg & E3 & Hl3 & Hlen & Hcfg) & Hother).
    cbv zeta. unfold Dataset.place_scene.
    destruct (String.eqb_spec label "left") as [-> | Nl].
    { rewrite E1. cbn [fst snd]. apply scene_clear; try assumption; lia. }
    destruct (String.eqb_spec label "right") as [-> | Nr].
    { rewrite E2. cbn [fst snd]. apply scene_clear; try assumption; lia. }
    destruct (String.eqb_spec label "no_action") as [-> | Nn].
    { rewrite E3. cbn [fst snd].
      destruct cfg as [|[l y] [|? ?]]; [reflexivity | | simpl in Hlen; lia].
      destruct (Hcfg l y (or_introl eq_refl)) as (Hne & Hl & _).
      apply scene_clear; try assumption; [lia | left; congruence]. }
    rewrite (Hother label Nl Nr Nn). reflexivity.
  - intros (Hidx & Hdist). cbv zeta. unfold Dataset.place_center_scene.
    cbn [fst snd].
    destruct (choice_two (Dataset.choice_index d) 0 2 Hidx) as [-> | ->];
      apply scene_clear; try assumption; try lia; left; discriminate.
Qed.

Lemma generated_scenes_never_collide_witness :
  let scene :=
    Dataset.place_scene "right" (Dataset.mkDraws 0 (1 # 2) 1 150)
                        (fun _ => 0%Q) (Car.init 300 650 45 70)
                        (Road.init 600 800) in
  Road.check_collisions (Car.get_rect (fst scene)) (snd scene) = (false, 0).
Proof.
  assert (Hc : Props.game_car (Car.init 300 650 45 70))
    by (repeat split; reflexivity).
  assert (Hd : Props.scenario_draws_ok (Dataset.mkDraws 0 (1 # 2) 1 150)).
  { unfold Props.scenario_draws_ok. simpl. lia. }
  exact (proj1 (generated_scenes_never_collide "right" _ (fun _ => 0%Q)
                  _ (Road.init 600 800) Hc) Hd).
Defined.

(** ** The held action and the target lane *)





(** ** The hit window *)

Lemma py_int_nonpos (q : Q) : (q < 0)%Q -> Py.int q <= 0.
Proof.
  destruct q as [n d]. unfold Qlt, Py.int. simpl. intro H.
  assert (Hn : n < 0) by lia.
  replace n with (- (- n)) by lia.
  rewrite Z.quot_opp_l by lia.
  pose proof (Z.quot_pos (- n) (Z.pos d) ltac:(lia) ltac:(lia)). lia.
Qed.

(** For a positive integer [z]: [z <= int(q)] exactly when [z <= q]. *)
Lemma py_int_ge (q : Q) (z : Z) :
  0 < z -> (z <= Py.int q <-> (inject_Z z <= q)%Q).
Proof.
  intro Hz.
  assert (Hzq : (0 < inject_Z z)%Q).
  { change 0%Q with (inject_Z 0). now rewrite <- Zlt_Qlt. }
  destruct (Qlt_le_dec q 0) as [Hneg | Hpos].
  - pose proof (py_int_nonpos q Hneg). split; [lia | lra].
  - rewrite (py_int_floor q Hpos). split; intro H.
    + apply Qle_trans with (inject_Z (Qfloor q)); [|apply Qfloor_le].
      now rewrite <- Zle_Qle.
    + rewrite <- (Qfloor_Z z). now apply Qfloor_resp_le.
Qed.

(** X19 -- the hit window.  For the game's vehicle (at y = 650, 45 by 70)
    and a 50 by 80 obstacle, the two boxes collide exactly when the
    obstacle's centre height is at least 576 and below 725 and the
    vehicle's centre is more than 48 to the left of, and less than 47 to
    the right of, the obstacle's centre.  The obstacle's float height is
    truncated when its box is built, which is why the window opens at 576
    and not just above 575.  A vehicle and an obstacle whose centres are
    50 or more apart sideways, as on two lane centres, never collide. *)
Theorem collision_window :
  forall (c : Car.t) (o : Obstacle.t),
    Props.game_car c ->
    Obstacle.width o = 50 -> Obstacle.height o = 80 ->
    (Rect.colliderect (Car.get_rect c) (Obstacle.get_rect o) = true <->
       (576 <= Obstacle.y o < 725)%Q /\
       -48 < Car.x c - Obstacle.x o < 47) /\
    (50 <= Z.abs (Car.x c - Obstacle.x o) ->
     Rect.colliderect (Car.get_rect c) (Obstacle.get_rect o) = false).
Proof.
  intros c o (Hy & Hw & Hh) How Hoh.
  assert (Hiff : Rect.colliderect (Car.get_rect c) (Obstacle.get_rect o) = true
                 <-> (576 <= Obstacle.y o < 725)%Q /\
                     -48 < Car.x c - Obstacle.x o < 47).
  { rewrite colliderect_overlap. unfold Rect.overlap_area.
    rewrite max0_mul_pos.
    unfold Rect.overlap_w, Rect.overlap_h, Rect.left, Rect.right, Rect.top,
      Rect.bottom, Car.get_rect, Obstacle.get_rect, Rect.make.
    cbn [Rect.x Rect.y Rect.w Rect.h].
    rewrite Hy, Hw, Hh, How, Hoh, !py_int_inject.
    change (45 / 2) with 22. change (70 / 2) with 35.
    change (50 / 2) with 25. change (80 / 2) with 40.
    set (T := Py.int (Obstacle.y o - inject_Z 40)).
    assert (Hlo : 536 <= T <-> (576 <= Obstacle.y o)%Q).
    { subst T. rewrite py_int_ge by lia.
      change (inject_Z 536) with 536%Q. change (inject_Z 40) with 40%Q.
      split; intro; lra. }
    assert (Hhi : 685 <= T <-> (725 <= Obstacle.y o)%Q).
    { subst T. rewrite py_int_ge by lia.
      change (inject_Z 685) with 685%Q. change (inject_Z 40) with 40%Q.
      split; intro; lra. }
    split.
    - intros [Hwd Hht].
      assert (H1 : 536 <= T) by lia. assert (H2 : ~ 685 <= T) by lia.
      rewrite Hlo in H1. rewrite Hhi in H2.
      split; [split; [exact H1 | now apply Qnot_le_lt] | lia].
    - intros [[H1 H2] Hx].
      rewrite <- Hlo in H1.
      assert (H3 : ~ 685 <= T) by (rewrite Hhi; lra).
      split; lia. }
  split; [exact Hiff|].
  intro Hfar.
  destruct (Rect.colliderect (Car.get_rect c) (Obstacle.get_rect o)) eqn:E;
    [|reflexivity].
  destruct (proj1 Hiff eq_refl) as [_ Hx]. lia.
Qed.

Lemma collision_window_witness :
  Rect.colliderect
    (Car.get_rect (Car.init 300 650 45 70))
    (Obstacle.get_rect (Obstacle.init 300 (1151 # 2) 50 80 0 "car" 0)) = false /\
  Rect.colliderect
    (Car.get_rect (Car.init 300 650 45 70))
    (Obstacle.get_rect (Obstacle.init 300 576 50 80 0 "car" 0)) = true.
Proof.
  assert (Hc : Props.game_car (Car.init 300 650 45 70))
    by (repeat split; reflexivity).
  split.
  - destruct (Rect.colliderect _ _) eqn:E; [|reflexivity].
    apply (collision_window (Car.init 300 650 45 70)
             (Obstacle.init 300 (1151 # 2) 50 80 0 "car" 0) Hc eq_refl eq_refl)
      in E.
    destruct E as [[E _] _]. vm_compute in E. exfalso. apply E. reflexivity.
  - apply (collision_window (Car.init 300 650 45 70)
             (Obstacle.init 300 576 50 80 0 "car" 0) Hc eq_refl eq_refl).
    split; [split; vm_compute; [discriminate | reflexivity]|].
    vm_compute. split; reflexivity.
Defined.

(** * Properties that depend on rounding *)

Import PrimFloat.
#[local] Set Warnings "-inexact-float".

(** ** Road.update on doubles *)





(** ** Obstacle advance and expiry on doubles *)




(** ** Score and distance on doubles *)




